(** * ld-find-code-refs: the search package

    A shallow embedding of [internal/search]: line truncation, delimiter
    matching, context extraction, per-flag hunk aggregation and merging, and
    the consuming loop of [SearchForRefs]; and of [parseBranch] of the
    GitHub Actions entry point.

    Go strings are byte sequences: they are modelled by [string], whose
    characters are the 8-bit [ascii] values.  Go's [int] is taken at its
    64-bit width and every addition and subtraction on it wraps.  A Go panic
    is the result [None]. *)

From Stdlib Require Import ZArith List Bool Lia Ascii String Permutation.
Import ListNotations.

Open Scope string_scope.
Open Scope list_scope.
Open Scope Z_scope.

(** ** Machine integers *)

Module GoInt.

Definition min_int : Z := - 2 ^ 63.
Definition max_int : Z := 2 ^ 63 - 1.

(** Two's complement wrap-around of a mathematical integer into [int]. *)
Definition wrap (z : Z) : Z := (z + 2 ^ 63) mod 2 ^ 64 - 2 ^ 63.

Definition add (a b : Z) : Z := wrap (a + b).
Definition sub (a b : Z) : Z := wrap (a - b).

Definition in_range (z : Z) : Prop := min_int <= z <= max_int.

End GoInt.

(** ** Strings *)

Definition newline : ascii := "010"%char.

(** [len(s)]: the number of bytes. *)
Definition len (s : string) : Z := Z.of_nat (String.length s).

(** [strings.HasPrefix(s, p)]. *)
Fixpoint HasPrefix (s p : string) : bool :=
  match p, s with
  | EmptyString, _ => true
  | String _ _, EmptyString => false
  | String a p', String b s' => Ascii.eqb a b && HasPrefix s' p'
  end.

(** [strings.Contains(s, substr)]: [substr] occurs at some byte offset. *)
Fixpoint Contains (s substr : string) : bool :=
  HasPrefix s substr ||
  match s with
  | EmptyString => false
  | String _ s' => Contains s' substr
  end.

(** [strings.Join(elems, "\n")]. *)
Fixpoint Join (elems : list string) : string :=
  match elems with
  | [] => EmptyString
  | [x] => x
  | x :: rest => (x ++ String newline (Join rest))%string
  end.

(** [strings.Split(s, "\n")]: the pieces between newlines; one more piece
    than there are newlines, so the empty string splits into one empty
    piece. *)
Fixpoint Split (s : string) : list string :=
  match s with
  | EmptyString => [EmptyString]
  | String c s' =>
      if Ascii.eqb c newline then EmptyString :: Split s'
      else match Split s' with
           | [] => [String c EmptyString]
           | p :: ps => String c p :: ps
           end
  end.

(** [strings.Count(s, "\n")]. *)
Fixpoint Count (s : string) : Z :=
  match s with
  | EmptyString => 0
  | String c s' => (if Ascii.eqb c newline then 1 else 0) + Count s'
  end.

(** ** UTF-8, as the conversions [[]rune(s)], [string(r)] and the [range]
    loop over a string perform it *)

Module Utf8.

Definition byteZ (c : ascii) : Z := Z.of_N (N_of_ascii c).
Definition zbyte (z : Z) : ascii := ascii_of_N (Z.to_N z).

Definition RuneError : Z := 65533.
Definition MaxRune : Z := 1114111.

Definition between (lo hi b : Z) : bool := (lo <=? b) && (b <=? hi).

(** A continuation byte. *)
Definition cont (b : Z) : bool := between 128 191 b.

(** Whether [b0] starts a multi-byte sequence and [b1] is an admissible
    second byte for it (this excludes overlong forms, surrogates and code
    points above [MaxRune]). *)
Definition accept (b0 b1 : Z) : bool :=
  if between 194 223 b0 then cont b1
  else if b0 =? 224 then between 160 191 b1
  else if b0 =? 237 then between 128 159 b1
  else if between 225 239 b0 then cont b1
  else if b0 =? 240 then between 144 191 b1
  else if between 241 243 b0 then cont b1
  else if b0 =? 244 then between 128 143 b1
  else false.

(** [[]rune(s)]: each well-formed sequence gives its code point, every
    other byte gives [RuneError] and is skipped alone. *)
Fixpoint runes (s : string) : list Z :=
  match s with
  | EmptyString => []
  | String c0 t0 =>
    let b0 := byteZ c0 in
    if b0 <? 128 then b0 :: runes t0 else
    match t0 with
    | EmptyString => [RuneError]
    | String c1 t1 =>
      let b1 := byteZ c1 in
      if negb (accept b0 b1) then RuneError :: runes t0 else
      if b0 <? 224 then ((b0 - 192) * 64 + (b1 - 128)) :: runes t1 else
      match t1 with
      | EmptyString => RuneError :: runes t0
      | String c2 t2 =>
        let b2 := byteZ c2 in
        if negb (cont b2) then RuneError :: runes t0 else
        if b0 <? 240
        then ((b0 - 224) * 4096 + (b1 - 128) * 64 + (b2 - 128)) :: runes t2
        else
        match t2 with
        | EmptyString => RuneError :: runes t0
        | String c3 t3 =>
          let b3 := byteZ c3 in
          if negb (cont b3) then RuneError :: runes t0 else
          ((b0 - 240) * 262144 + (b1 - 128) * 4096
           + (b2 - 128) * 64 + (b3 - 128)) :: runes t3
        end
      end
    end
  end.

Definition str (bs : list Z) : string :=
  fold_right (fun b s => String (zbyte b) s) EmptyString bs.

(** [string(r)] for a rune [r]. *)
Definition encode (r : Z) : string :=
  let r := if (r <? 0) || (MaxRune <? r) || between 55296 57343 r
           then RuneError else r in
  if r <=? 127 then str [r]
  else if r <=? 2047 then str [192 + r / 64; 128 + r mod 64]
  else if r <=? 65535
  then str [224 + r / 4096; 128 + (r / 64) mod 64; 128 + r mod 64]
  else str [240 + r / 262144; 128 + (r / 4096) mod 64;
            128 + (r / 64) mod 64; 128 + r mod 64].

(** [string(rs)] for a rune slice [rs]. *)
Fixpoint of_runes (rs : list Z) : string :=
  match rs with
  | [] => EmptyString
  | r :: rs' => (encode r ++ of_runes rs')%string
  end.

End Utf8.

(** ** The search package *)

Definition maxFileCount : Z := 10000.
Definition maxHunkCount : Z := 25000.
Definition maxLineCharCount : Z := 500.

(** The marker appended to a truncated line, U+2026 in UTF-8. *)
Definition ellipsis : string := Utf8.str [226; 128; 166].

(** [truncateLine].  The slice expression [runes[0:maxLineCharCount]] is in
    range up to the capacity of [runes].  The language gives the result of
    the conversion [[]rune(line)] the number of runes as its length and
    promises no capacity beyond it; the capacity is taken to be the length,
    the least the language allows.  Out of range, the function panics. *)
Definition truncateLine (line : string) : option string :=
  if len line <=? maxLineCharCount then Some line
  else
    let runes := Utf8.runes line in
    if maxLineCharCount <=? Z.of_nat (List.length runes)
    then Some (Utf8.of_runes (firstn (Z.to_nat maxLineCharCount) runes)
               ++ ellipsis)%string
    else None.

(** [matchDelimiters]: the two nested [range] loops over the runes of
    [delimiters], returning at the first hit. *)
Definition matchDelimiters (match_ flagKey delimiters : string) : bool :=
  existsb (fun left =>
    existsb (fun right =>
      Contains match_ (Utf8.encode left ++ flagKey ++ Utf8.encode right)%string)
      (Utf8.runes delimiters))
    (Utf8.runes delimiters).

(** Modelled from the spec: the type [ld.HunkRep] is declared outside the
    sources.  Its fields are those of the spec's Hunk (project key,
    identifier, starting line counted from 1, text, aliases) under the names
    the package uses for them. *)
Record HunkRep : Type := mkHunkRep {
  ProjKey : string;
  FlagKey : string;
  StartingLineNumber : Z;
  Lines : string;
  Aliases : list string
}.

(** Modelled from the spec: the type [ld.ReferenceHunksRep] is declared
    outside the sources.  It is the spec's FileResult, a path and the hunks
    of the file. *)
Record ReferenceHunksRep : Type := mkReferenceHunksRep {
  Path : string;
  Hunks : list HunkRep
}.

(** Modelled from the spec: [HunkRep.NumLines], of package [ld], is not
    among the sources.  The number of lines of a hunk's text, the text being
    its lines joined by newlines. *)
Definition NumLines (h : HunkRep) : Z := Count (Lines h) + 1.

(** Modelled from the spec: [HunkRep.Overlap], of package [ld], is not among
    the sources.  The overlap rule is computed from the starting lines and
    the number of lines of the text: the number of lines of [hr] that [h]
    already covers, non-negative exactly when [h]'s last line is at least
    [hr]'s starting line minus one. *)
Definition Overlap (h hr : HunkRep) : Z :=
  StartingLineNumber h + NumLines h - StartingLineNumber hr.

Definition string_eqb (a b : string) : bool := String.eqb a b.

(** Modelled from the spec: [helpers.Dedupe] is not among the sources.  It
    removes repeated entries, keeping the first occurrence of each. *)
Fixpoint Dedupe (s : list string) : list string :=
  match s with
  | [] => []
  | x :: rest => x :: filter (fun y => negb (string_eqb x y)) (Dedupe rest)
  end.

Record file : Type := mkFile {
  path : string;
  lines : list string
}.

(** [l[lo:hi]] for indices in range. *)
Definition slice {A : Type} (l : list A) (lo hi : nat) : list A :=
  firstn (hi - lo) (skipn lo l).

(** The loop [for i, line := range context { context[i] = truncateLine(line) }]. *)
Fixpoint truncateAll (context : list string) : option (list string) :=
  match context with
  | [] => Some []
  | line :: rest =>
      match truncateLine line with
      | None => None
      | Some t =>
          match truncateAll rest with
          | None => None
          | Some ts => Some (t :: ts)
          end
      end
  end.

(** [linesIfMatch].  The receiver is a copy of the [file] struct, whose
    [lines] slice shares its backing array with the caller's: [context] is a
    sub-slice of it, and the assignments [context[i] = ...] write into the
    file's lines.  The function therefore takes the current contents of
    [f.lines] and returns the contents after the call together with the
    hunk ([None] for the nil pointer). *)
Definition linesIfMatch (flines : list string) (projKey flagKey line : string)
    (aliases : list string) (matchLineNum ctxLines : Z) (delimiters : string)
    : option (list string * option HunkRep) :=
  let matchedFlag := matchDelimiters line flagKey delimiters in
  let aliasMatches := filter (fun alias => Contains line alias) aliases in
  if negb matchedFlag && (Z.of_nat (List.length aliasMatches) =? 0)
  then Some (flines, None)
  else
    let n := Z.of_nat (List.length flines) in
    let retAliases := fold_left (fun _ alias => [alias]) aliasMatches [] in
    if 0 <=? ctxLines then
      let startingLineNum := GoInt.sub matchLineNum ctxLines in
      let startingLineNum := if startingLineNum <? 0 then 0 else startingLineNum in
      let endingLineNum := GoInt.add (GoInt.add matchLineNum ctxLines) 1 in
      let hi := if n <=? endingLineNum then n else endingLineNum in
      if (startingLineNum <=? hi) then
        let lo' := Z.to_nat startingLineNum in
        let hi' := Z.to_nat hi in
        match truncateAll (slice flines lo' hi') with
        | None => None
        | Some context =>
            Some (firstn lo' flines ++ context ++ skipn hi' flines,
                  Some (mkHunkRep projKey flagKey
                          (GoInt.add startingLineNum 1)
                          (Join context) retAliases))
        end
      else None
    else
      Some (flines,
            Some (mkHunkRep projKey flagKey (GoInt.add matchLineNum 1)
                    (Join []) retAliases)).

(** [mergeHunks]. *)
Definition mergeHunks (a b : HunkRep) (ctxLines : Z) : list HunkRep :=
  let '(a, b) :=
    if StartingLineNumber b <? StartingLineNumber a then (b, a) else (a, b) in
  let aLines := Split (Lines a) in
  let bLines := Split (Lines b) in
  let overlap := Overlap a b in
  if (ctxLines <? 0) || (overlap <? 0) then [a; b]
  else if Z.of_nat (List.length bLines) <=? overlap then [a]
  else
    let combinedLines := aLines ++ skipn (Z.to_nat overlap) bLines in
    [mkHunkRep (ProjKey a) (FlagKey a) (StartingLineNumber a)
       (Join combinedLines) (Dedupe (Aliases a ++ Aliases b))].

(** The body of [if match != nil] in [aggregateHunksForFlag]: the new hunk
    is merged into the last accumulated one or appended. *)
Definition addMatch (hunksForFlag : list HunkRep) (match_ : HunkRep)
    (ctxLines : Z) : list HunkRep :=
  match rev hunksForFlag with
  | lastHunk :: _ =>
      if 0 <=? Overlap lastHunk match_
      then firstn (List.length hunksForFlag - 1) hunksForFlag
           ++ mergeHunks lastHunk match_ ctxLines
      else hunksForFlag ++ [match_]
  | [] => hunksForFlag ++ [match_]
  end.

(** The loop of [aggregateHunksForFlag] from index [i] on, with [todo]
    iterations left.  [range f.lines] fixes the number of iterations at the
    start and reads element [i] of the backing array when iteration [i]
    begins, so a line overwritten by an earlier iteration is read in its
    overwritten form. *)
Fixpoint aggregateFrom (todo : nat) (i : nat) (flines : list string)
    (hunksForFlag : list HunkRep) (projKey flagKey : string)
    (flagAliases : list string) (ctxLines : Z) (delimiters : string)
    : option (list string * list HunkRep) :=
  match todo with
  | O => Some (flines, hunksForFlag)
  | S todo' =>
      let line := nth i flines EmptyString in
      match linesIfMatch flines projKey flagKey line flagAliases
              (Z.of_nat i) ctxLines delimiters with
      | None => None
      | Some (flines', None) =>
          aggregateFrom todo' (S i) flines' hunksForFlag
            projKey flagKey flagAliases ctxLines delimiters
      | Some (flines', Some match_) =>
          aggregateFrom todo' (S i) flines'
            (addMatch hunksForFlag match_ ctxLines)
            projKey flagKey flagAliases ctxLines delimiters
      end
  end.

(** [aggregateHunksForFlag]: the contents of the file's lines after the
    call, and the hunks. *)
Definition aggregateHunksForFlag (flines : list string)
    (projKey flagKey : string) (flagAliases : list string) (ctxLines : Z)
    (delimiters : string) : option (list string * list HunkRep) :=
  aggregateFrom (List.length flines) 0 flines [] projKey flagKey flagAliases
    ctxLines delimiters.

(** The loop of [toHunks].  The order in which [range] visits a map is not
    specified; [aliases] lists the entries of the map in the order of the
    visit. *)
Fixpoint toHunksFrom (flines : list string) (hunks : list HunkRep)
    (projKey : string) (aliases : list (string * list string))
    (ctxLines : Z) (delimiters : string)
    : option (list string * list HunkRep) :=
  match aliases with
  | [] => Some (flines, hunks)
  | (flagKey, flagAliases) :: rest =>
      match aggregateHunksForFlag flines projKey flagKey flagAliases
              ctxLines delimiters with
      | None => None
      | Some (flines', hs) =>
          toHunksFrom flines' (hunks ++ hs) projKey rest ctxLines delimiters
      end
  end.

(** [toHunks]: the lines of [f] after the call, and the reference ([None]
    for the nil pointer). *)
Definition toHunks (f : file) (projKey : string)
    (aliases : list (string * list string)) (ctxLines : Z)
    (delimiters : string) : option (list string * option ReferenceHunksRep) :=
  match toHunksFrom (lines f) [] projKey aliases ctxLines delimiters with
  | None => None
  | Some (flines', hunks) =>
      if Z.of_nat (List.length hunks) =? 0 then Some (flines', None)
      else Some (flines', Some (mkReferenceHunksRep (path f) hunks))
  end.

(** The consuming loop of [SearchForRefs]: [references] are the values
    received from the channel, in the order of their arrival. *)
Fixpoint drainReferences (references : list ReferenceHunksRep)
    (ret : list ReferenceHunksRep) (totalHunks : Z)
    : list ReferenceHunksRep :=
  match references with
  | [] => ret
  | reference :: rest =>
      let ret := ret ++ [reference] in
      if maxFileCount <=? Z.of_nat (List.length ret) then ret
      else
        let totalHunks :=
          GoInt.add totalHunks (Z.of_nat (List.length (Hunks reference))) in
        if maxHunkCount <? totalHunks then ret
        else drainReferences rest ret totalHunks
  end.

Definition SearchForRefs (references : list ReferenceHunksRep)
    : list ReferenceHunksRep :=
  drainReferences references [] 0.

(** ** The GitHub Actions entry point: [parseBranch] *)

(** The text [s] without the literal [p] at its start, when it starts with
    it. *)
Fixpoint afterLiteral (p s : string) : option string :=
  match p, s with
  | EmptyString, _ => Some s
  | String _ _, EmptyString => None
  | String a p', String b s' =>
      if Ascii.eqb a b then afterLiteral p' s' else None
  end.

(** [(.+)$] at the position where [s] starts: one or more characters, none
    of them a newline, up to the end of the text.  Without flags, [.] is
    any character but the newline and [$] is the end of the text. *)
Definition dotPlusToEnd (s : string) : bool :=
  let rs := Utf8.runes s in
  negb (Z.of_nat (List.length rs) =? 0)
  && forallb (fun r => negb (r =? 10)) rs.

(** [re.FindStringSubmatch(ref)] for [re] compiled from
    [^refs/heads/(.+)$]: [None] for nil, otherwise the text of the match and
    of its group.  [^] is the start of the text, so the literal is looked
    for there only; the group then has to run to the end of the text. *)
Definition FindStringSubmatch (ref : string) : option (list string) :=
  match afterLiteral "refs/heads/" ref with
  | Some rest => if dotPlusToEnd rest then Some [ref; rest] else None
  | None => None
  end.

(** [parseBranch]: the branch, or the error. *)
Definition parseBranch (ref : string) : string + string :=
  match FindStringSubmatch ref with
  | None =>
      inr ("expected branch name starting with refs/heads/, got: " ++ ref)%string
  | Some results => inl (nth 1 results EmptyString)
  end.

(** * Vocabulary of the statements *)

(** The delimiter set made of the single and the double quote. *)
Definition quotes : string := Utf8.str [39; 34].

(** A string without a newline byte. *)
Fixpoint oneLine (s : string) : bool :=
  match s with
  | EmptyString => true
  | String c s' => negb (Ascii.eqb c newline) && oneLine s'
  end.

(** The hunk [mergeHunks] builds from [a], [b] and the combined lines. *)
Definition merged (a b : HunkRep) (combinedLines : list string) : HunkRep :=
  mkHunkRep (ProjKey a) (FlagKey a) (StartingLineNumber a)
    (Join combinedLines) (Dedupe (Aliases a ++ Aliases b)).

(** Ten lines, with the flag at lines 5 and 7 (counted from 1). *)
Definition tenLines : list string :=
  ["l1"; "l2"; "l3"; "l4"; "l5 'flag'"; "l6"; "l7 'flag'"; "l8"; "l9"; "l10"].

(** The starting line (counted from 1) of the excerpt of a match at index
    [i]. *)
Definition excerptStart (i ctxLines : Z) : Z :=
  if 0 <=? ctxLines then Z.max 0 (i - ctxLines) + 1 else i + 1.

(** The line after the last line of a hunk. *)
Definition endLine (h : HunkRep) : Z := StartingLineNumber h + NumLines h.

(** [h1] ends before [h2] starts: the two have no line in common. *)
Definition before (h1 h2 : HunkRep) : Prop :=
  endLine h1 <= StartingLineNumber h2.

Definition startsBefore (h1 h2 : HunkRep) : Prop :=
  StartingLineNumber h1 < StartingLineNumber h2.

(** The loop invariant of [aggregateHunksForFlag] before the iteration whose
    excerpt would start at line [bound]: the hunks are pairwise separated,
    none starts after [bound], and without context none reaches [bound]. *)
Definition hunksInv (ctxLines bound : Z) (hs : list HunkRep) : Prop :=
  ForallOrdPairs before hs /\
  Forall (fun h => StartingLineNumber h <= bound) hs /\
  (ctxLines < 0 -> Forall (fun h => endLine h <= bound) hs).

(** Lines 2 and 9 match and are too far apart to merge. *)
Definition twoHunkLines : list string :=
  ["l1"; "l2 'flag'"; "l3"; "l4"; "l5"; "l6"; "l7"; "l8"; "l9 'flag'"; "l10"].

(** A line is of interest for a flag: a primary match or an alias match. *)
Definition lineMatches (line flagKey : string) (aliases : list string)
    (delimiters : string) : bool :=
  matchDelimiters line flagKey delimiters
  || existsb (fun alias => Contains line alias) aliases.

(** The numbers (counted from 1) of the lines of interest among [ls], the
    first of which has index [i]. *)
Fixpoint matchLineNumbers (i : Z) (ls : list string) (flagKey : string)
    (aliases : list string) (delimiters : string) : list Z :=
  match ls with
  | [] => []
  | line :: rest =>
      if lineMatches line flagKey aliases delimiters
      then (i + 1) :: matchLineNumbers (i + 1) rest flagKey aliases delimiters
      else matchLineNumbers (i + 1) rest flagKey aliases delimiters
  end.

(** The number of hunks of a sequence of references. *)
Fixpoint hunkTotal (rs : list ReferenceHunksRep) : Z :=
  match rs with
  | [] => 0
  | r :: rest => Z.of_nat (List.length (Hunks r)) + hunkTotal rest
  end.

(** Every reference has exactly one hunk. *)
Definition oneHunkEach (rs : list ReferenceHunksRep) : Prop :=
  Forall (fun r => List.length (Hunks r) = 1%nat) rs.

(** The hunk count of each reference leaves room for the running total. *)
Definition countsFit (rs : list ReferenceHunksRep) : Prop :=
  Forall (fun r => Z.of_nat (List.length (Hunks r))
                   <= GoInt.max_int - maxHunkCount) rs.

(** A reference with [n] hunks. *)
Definition referenceOf (n : nat) : ReferenceHunksRep :=
  mkReferenceHunksRep "f"
    (repeat (mkHunkRep "proj" "flag" 1 EmptyString []) n).

(** [n] copies of [s]. *)
Fixpoint replicate (n : nat) (s : string) : string :=
  match n with
  | O => EmptyString
  | S n' => (s ++ replicate n' s)%string
  end.

(** 500 bytes followed by the quoted flag key. *)
Definition flagBeyondLimit : string := (replicate 500 "a" ++ "'flag'")%string.

(** 300 times the two-byte character U+00E9. *)
Definition accented : string := replicate 300 (Utf8.encode 233).

(** The same, followed by the quoted flag key: 606 bytes, 306 characters. *)
Definition accentedLine : string := (accented ++ "'flag'")%string.

(** A line that quotes one flag key at its start and another beyond the
    truncation limit. *)
Definition twoFlagLine : string :=
  ("'one' " ++ replicate 500 "a" ++ " 'two'")%string.

(** The flags for which [toHunks] reports hunks. *)
Definition reportedFlags
    (r : option (list string * option ReferenceHunksRep)) : list string :=
  match r with
  | Some (_, Some reference) => map FlagKey (Hunks reference)
  | _ => []
  end.

(** Every line has at most [maxLineCharCount] bytes. *)
Definition shortLines (ls : list string) : Prop :=
  Forall (fun line => len line <= maxLineCharCount) ls.

(** The excerpt window of a match at index [i] in a file of [n] lines, with
    [c] context lines: the indices from the first component up to, and not
    including, the second. *)
Definition window (n c i : nat) : nat * nat :=
  ((i - c)%nat, Nat.min n (i + c + 1)).

(** The alias list [linesIfMatch] gives to a hunk. *)
Definition hunkAliases (line : string) (aliases : list string) : list string :=
  fold_left (fun _ alias => [alias])
    (filter (fun alias => Contains line alias) aliases) [].

(** What a hunk shows: where it starts and its text. *)
Definition located (h : HunkRep) : Z * string :=
  (StartingLineNumber h, Lines h).

(** The excerpt of the lines of a file from index [fst w] up to, and not
    including, index [snd w]. *)
Definition excerptOf (flines : list string) (w : nat * nat) : Z * string :=
  (Z.of_nat (fst w) + 1, Join (slice flines (fst w) (snd w))).

(** Adding the window [w] to a cover whose current range is [cur]: a
    window that starts within the current range or right after it extends
    it; any other window closes the current range, which is the first
    component of the result, and opens a new one. *)
Definition extendCover (cur : option (nat * nat)) (w : nat * nat)
    : list (nat * nat) * option (nat * nat) :=
  match cur with
  | Some (clo, chi) =>
      if (fst w <=? chi)%nat then ([], Some (clo, Nat.max chi (snd w)))
      else ([(clo, chi)], Some w)
  | None => ([], Some w)
  end.

(** The union of the windows of the lines of interest among [rest] (the
    first of which has index [i]), as maximal ranges of lines. *)
Fixpoint coverFrom (n c i : nat) (rest : list string)
    (cur : option (nat * nat)) (flagKey : string) (aliases : list string)
    (delimiters : string) : list (nat * nat) :=
  match rest with
  | [] => match cur with Some w => [w] | None => [] end
  | line :: rest' =>
      if lineMatches line flagKey aliases delimiters then
        fst (extendCover cur (window n c i))
        ++ coverFrom n c (S i) rest' (snd (extendCover cur (window n c i)))
             flagKey aliases delimiters
      else coverFrom n c (S i) rest' cur flagKey aliases delimiters
  end.

(** The range [cur] of the cover is the last hunk of [hs]. *)
Definition tracks (flines : list string) (c i : nat) (hs : list HunkRep)
    (cur : option (nat * nat)) : Prop :=
  match cur with
  | None => hs = []
  | Some (clo, chi) =>
      exists hs' a,
        hs = hs' ++ [a] /\
        StartingLineNumber a = Z.of_nat clo + 1 /\
        Lines a = Join (slice flines clo chi) /\
        (clo < chi <= List.length flines)%nat /\
        (clo <= i - c)%nat /\
        (chi <= Nat.min (List.length flines) (i + c + 1))%nat
  end.

Definition scalar (r : Z) : Prop :=
  0 <= r <= Utf8.MaxRune /\ ~ (55296 <= r <= 57343).

(** What the decoder reads at the head of a string. *)
Inductive headRune (c0 : ascii) (t0 : string) : Z -> string -> Prop :=
| head_ascii :
    Utf8.byteZ c0 < 128 -> headRune c0 t0 (Utf8.byteZ c0) t0
| head_error :
    128 <= Utf8.byteZ c0 -> headRune c0 t0 Utf8.RuneError t0
| head_2 c1 t1 :
    t0 = String c1 t1 ->
    128 <= Utf8.byteZ c0 < 224 ->
    Utf8.accept (Utf8.byteZ c0) (Utf8.byteZ c1) = true ->
    headRune c0 t0
      ((Utf8.byteZ c0 - 192) * 64 + (Utf8.byteZ c1 - 128)) t1
| head_3 c1 c2 t2 :
    t0 = String c1 (String c2 t2) ->
    224 <= Utf8.byteZ c0 < 240 ->
    Utf8.accept (Utf8.byteZ c0) (Utf8.byteZ c1) = true ->
    Utf8.cont (Utf8.byteZ c2) = true ->
    headRune c0 t0
      ((Utf8.byteZ c0 - 224) * 4096 + (Utf8.byteZ c1 - 128) * 64
       + (Utf8.byteZ c2 - 128)) t2
| head_4 c1 c2 c3 t3 :
    t0 = String c1 (String c2 (String c3 t3)) ->
    240 <= Utf8.byteZ c0 ->
    Utf8.accept (Utf8.byteZ c0) (Utf8.byteZ c1) = true ->
    Utf8.cont (Utf8.byteZ c2) = true ->
    Utf8.cont (Utf8.byteZ c3) = true ->
    headRune c0 t0
      ((Utf8.byteZ c0 - 240) * 262144 + (Utf8.byteZ c1 - 128) * 4096
       + (Utf8.byteZ c2 - 128) * 64 + (Utf8.byteZ c3 - 128)) t3.

(** [new] is what a line [old] may have become: the line itself or its
    truncation. *)
Definition rewritten (old new : string) : Prop :=
  new = old \/ truncateLine old = Some new.

(** A hunk of the given project and flag that starts within the first [n]
    lines. *)
Definition labelled (projKey flagKey : string) (n : Z) (h : HunkRep) : Prop :=
  ProjKey h = projKey /\ FlagKey h = flagKey /\
  1 <= StartingLineNumber h <= n.

(** No line of [flines] is of interest for the flag. *)
Definition noInterest (flines : list string) (flagKey : string)
    (aliases : list string) (delimiters : string) : bool :=
  forallb (fun line => negb (lineMatches line flagKey aliases delimiters))
    flines.

(** No flag of the table has a line of interest in [flines]. *)
Definition noInterestAtAll (flines : list string)
    (aliases : list (string * list string)) (delimiters : string) : Prop :=
  Forall (fun entry => noInterest flines (fst entry) (snd entry) delimiters
                       = true) aliases.

(** The hunks of one entry of the table, searched in [flines]. *)
Definition hunksOf (flines : list string) (projKey : string) (ctxLines : Z)
    (delimiters : string) (entry : string * list string) : list HunkRep :=
  match aggregateHunksForFlag flines projKey (fst entry) (snd entry)
          ctxLines delimiters with
  | Some (_, hs) => hs
  | None => []
  end.

(** The hunks of a reference, none for the nil pointer. *)
Definition hunksOfReference (r : option ReferenceHunksRep) : list HunkRep :=
  match r with
  | Some reference => Hunks reference
  | None => []
  end.


(** A range of lines of the [n] lines [flines] that holds a line of
    interest. *)
Definition holdsMatch (n : nat) (flagKey : string) (aliases : list string)
    (delimiters : string) (flines : list string) (w : nat * nat) : Prop :=
  (fst w < snd w <= n)%nat /\
  exists (j : nat) (line : string),
    nth_error flines j = Some line /\
    lineMatches line flagKey aliases delimiters = true /\
    (fst w <= j < snd w)%nat.

(** * Properties *)

(** ** Machine integers *)

(** Side conditions saying that a value fits in [int]. *)
Ltac int_range :=
  unfold GoInt.in_range, GoInt.min_int, GoInt.max_int in *; lia.

Lemma wrap_in_range (z : Z) : GoInt.in_range z -> GoInt.wrap z = z.
Proof.
  unfold GoInt.in_range, GoInt.min_int, GoInt.max_int, GoInt.wrap.
  intros H. rewrite Z.mod_small; lia.
Qed.

Lemma add_in_range (a b : Z) :
  GoInt.in_range (a + b) -> GoInt.add a b = a + b.
Proof. apply wrap_in_range. Qed.

Lemma sub_in_range (a b : Z) :
  GoInt.in_range (a - b) -> GoInt.sub a b = a - b.
Proof. apply wrap_in_range. Qed.

Lemma wrap_bounds (z : Z) : GoInt.in_range (GoInt.wrap z).
Proof.
  unfold GoInt.in_range, GoInt.min_int, GoInt.max_int, GoInt.wrap.
  pose proof (Z.mod_pos_bound (z + 2 ^ 63) (2 ^ 64) ltac:(lia)). lia.
Qed.

(** ** Substrings *)

Lemma HasPrefix_app (p q : string) : HasPrefix (p ++ q) p = true.
Proof.
  induction p as [|a p IH]; simpl.
  - destruct q; reflexivity.
  - rewrite Ascii.eqb_refl. exact IH.
Qed.

Lemma HasPrefix_inv (s p : string) :
  HasPrefix s p = true -> exists q, s = (p ++ q)%string.
Proof.
  revert s. induction p as [|a p IH]; intros s H.
  - exists s. reflexivity.
  - destruct s as [|b s]; simpl in H; [discriminate|].
    apply andb_true_iff in H. destruct H as [Hab Hp].
    apply Ascii.eqb_eq in Hab. subst b.
    destruct (IH _ Hp) as [q ->]. exists q. reflexivity.
Qed.

Lemma Contains_unfold (s substr : string) :
  Contains s substr =
  HasPrefix s substr ||
  match s with
  | EmptyString => false
  | String _ s' => Contains s' substr
  end.
Proof. destruct s; reflexivity. Qed.

(** [Contains] decides the occurrence of [substr] as a contiguous part. *)
Lemma Contains_iff (s substr : string) :
  Contains s substr = true <->
  exists p q, s = (p ++ substr ++ q)%string.
Proof.
  split.
  - induction s as [|c s IH]; rewrite Contains_unfold; intros H;
      apply orb_true_iff in H; destruct H as [H|H].
    + apply HasPrefix_inv in H. destruct H as [q ->].
      exists EmptyString, q. reflexivity.
    + discriminate.
    + apply HasPrefix_inv in H. destruct H as [q ->].
      exists EmptyString, q. reflexivity.
    + destruct (IH H) as (p & q & ->).
      exists (String c p), q. reflexivity.
  - intros (p & q & ->). induction p as [|c p IH].
    + rewrite Contains_unfold. simpl (EmptyString ++ _)%string.
      rewrite HasPrefix_app. reflexivity.
    + simpl (String c p ++ _)%string. rewrite Contains_unfold, IH.
      apply orb_true_r.
Qed.

(** ** Delimiter matching *)

(** C4: a line gives a primary match for an identifier exactly when, for
    some left and some right delimiter character taken from the runes of the
    delimiter string (possibly the same one), the line contains the
    identifier flanked by these two characters as a contiguous substring.
    With the two quote characters as delimiters, the line [x = 'flag']
    matches [flag] and the line [x = flagged] does not. *)
Theorem matchDelimiters_iff_flanked :
  (forall line flagKey delimiters : string,
      matchDelimiters line flagKey delimiters = true <->
      exists left right : Z,
        In left (Utf8.runes delimiters) /\
        In right (Utf8.runes delimiters) /\
        exists p q : string,
          line = (p ++ (Utf8.encode left ++ flagKey ++ Utf8.encode right)
                    ++ q)%string)
  /\ matchDelimiters "x = 'flag'" "flag" quotes = true
  /\ matchDelimiters "x = flagged" "flag" quotes = false.
Proof.
  split; [|split; reflexivity].
  intros line flagKey delimiters. unfold matchDelimiters.
  rewrite existsb_exists. split.
  - intros (left & Hl & H). apply existsb_exists in H.
    destruct H as (right & Hr & H). apply Contains_iff in H.
    exists left, right. auto.
  - intros (left & right & Hl & Hr & H).
    exists left. split; [exact Hl|]. apply existsb_exists.
    exists right. split; [exact Hr|]. apply Contains_iff. exact H.
Qed.

(** ** Splitting and joining lines *)

Lemma Split_not_nil (s : string) : Split s <> [].
Proof.
  induction s as [|c s IH]; simpl; [discriminate|].
  destruct (Ascii.eqb c newline); [discriminate|].
  destruct (Split s); discriminate.
Qed.

Lemma Count_nonneg (s : string) : 0 <= Count s.
Proof.
  induction s as [|c s IH]; simpl; [lia|].
  destruct (Ascii.eqb c newline); lia.
Qed.

Lemma Split_length (s : string) :
  Z.of_nat (List.length (Split s)) = Count s + 1.
Proof.
  induction s as [|c s IH]; simpl; [reflexivity|].
  destruct (Ascii.eqb c newline).
  - simpl List.length. lia.
  - pose proof (Split_not_nil s) as Hn.
    destruct (Split s) as [|p ps]; [contradiction|].
    simpl List.length in *. lia.
Qed.

Lemma Join_cons (x : string) (rest : list string) :
  rest <> [] -> Join (x :: rest) = (x ++ String newline (Join rest))%string.
Proof. destruct rest; [contradiction|reflexivity]. Qed.

Lemma Join_Split (s : string) : Join (Split s) = s.
Proof.
  induction s as [|c s IH]; simpl; [reflexivity|].
  destruct (Ascii.eqb c newline) eqn:E.
  - apply Ascii.eqb_eq in E. subst c.
    rewrite Join_cons by apply Split_not_nil. rewrite IH. reflexivity.
  - pose proof (Split_not_nil s) as Hn.
    destruct (Split s) as [|p ps]; [contradiction|].
    destruct ps as [|p' ps].
    + simpl in *. congruence.
    + rewrite Join_cons in * by discriminate.
      simpl. rewrite <- IH. reflexivity.
Qed.

Lemma Split_oneLine (s : string) : oneLine s = true -> Split s = [s].
Proof.
  induction s as [|c s IH]; simpl; [reflexivity|].
  intros H. apply andb_true_iff in H. destruct H as [Hc Hs].
  apply negb_true_iff in Hc. rewrite Hc, (IH Hs). reflexivity.
Qed.

Lemma Split_app_newline (x rest : string) :
  oneLine x = true ->
  Split (x ++ String newline rest) = x :: Split rest.
Proof.
  induction x as [|c x IH]; simpl; intros H.
  - reflexivity.
  - apply andb_true_iff in H. destruct H as [Hc Hx].
    apply negb_true_iff in Hc. rewrite Hc, (IH Hx). reflexivity.
Qed.

(** Joining lines and splitting the text again gives the lines back. *)
Lemma Split_Join (ls : list string) :
  ls <> [] -> forallb oneLine ls = true -> Split (Join ls) = ls.
Proof.
  induction ls as [|x rest IH]; [contradiction|].
  intros _ H. simpl in H. apply andb_true_iff in H. destruct H as [Hx Hr].
  destruct rest as [|y rest].
  - simpl. apply Split_oneLine. exact Hx.
  - rewrite Join_cons by discriminate.
    rewrite Split_app_newline by exact Hx.
    rewrite IH; [reflexivity|discriminate|exact Hr].
Qed.

Lemma Split_pieces_oneLine (s : string) : forallb oneLine (Split s) = true.
Proof.
  induction s as [|c s IH]; simpl; [reflexivity|].
  destruct (Ascii.eqb c newline) eqn:E.
  - simpl. exact IH.
  - pose proof (Split_not_nil s) as Hn.
    destruct (Split s) as [|p ps]; [contradiction|].
    simpl in *. rewrite E. exact IH.
Qed.

(** The number of lines of a joined text. *)
Lemma Count_Join (ls : list string) :
  ls <> [] -> forallb oneLine ls = true ->
  Count (Join ls) + 1 = Z.of_nat (List.length ls).
Proof.
  intros Hn Hl. rewrite <- Split_length, Split_Join by assumption.
  reflexivity.
Qed.

(** ** Merging *)

Lemma firstn_pred_last {A : Type} (l : list A) (x : A) :
  firstn (List.length (l ++ [x]) - 1) (l ++ [x]) = l.
Proof.
  rewrite length_app. simpl List.length.
  replace (List.length l + 1 - 1)%nat with (List.length l + 0)%nat by lia.
  rewrite firstn_app_2. simpl. apply app_nil_r.
Qed.

Lemma addMatch_last (hs : list HunkRep) (a b : HunkRep) (ctxLines : Z) :
  addMatch (hs ++ [a]) b ctxLines =
  if 0 <=? Overlap a b then hs ++ mergeHunks a b ctxLines
  else hs ++ [a] ++ [b].
Proof.
  unfold addMatch. rewrite rev_app_distr. simpl rev. simpl app at 1.
  rewrite firstn_pred_last, <- app_assoc. reflexivity.
Qed.

Lemma addMatch_nil (b : HunkRep) (ctxLines : Z) : addMatch [] b ctxLines = [b].
Proof. reflexivity. Qed.

Lemma NumLines_Join (h : HunkRep) (ls : list string) :
  ls <> [] -> forallb oneLine ls = true -> Lines h = Join ls ->
  NumLines h = Z.of_nat (List.length ls).
Proof.
  intros Hn Hl E. unfold NumLines. rewrite E. apply Count_Join; assumption.
Qed.

(** Merging an excerpt [b] of lines [lb] into the last hunk [a] of lines
    [la], when [b] starts no later than the line after [a]'s last one:
    [covered] lines of [b] are already in [a]. *)
Lemma addMatch_merge_lines (hs : list HunkRep) (a b : HunkRep)
    (la lb : list string) (ctxLines : Z) :
  0 <= ctxLines ->
  la <> [] -> lb <> [] ->
  forallb oneLine la = true -> forallb oneLine lb = true ->
  Lines a = Join la -> Lines b = Join lb ->
  StartingLineNumber a <= StartingLineNumber b ->
  StartingLineNumber b <= StartingLineNumber a + Z.of_nat (List.length la) ->
  let covered :=
    Z.to_nat (StartingLineNumber a + Z.of_nat (List.length la)
              - StartingLineNumber b) in
  addMatch (hs ++ [a]) b ctxLines =
  hs ++ [if (List.length lb <=? covered)%nat then a
         else merged a b (la ++ skipn covered lb)].
Proof.
  intros Hc Hla Hlb Ola Olb Ea Eb Hab Hadj covered.
  rewrite addMatch_last.
  assert (Hov : Overlap a b =
                StartingLineNumber a + Z.of_nat (List.length la)
                - StartingLineNumber b).
  { unfold Overlap. rewrite (NumLines_Join a la) by assumption. reflexivity. }
  destruct (Z.leb_spec 0 (Overlap a b)) as [_|Hneg]; [|lia].
  f_equal. unfold mergeHunks.
  destruct (Z.ltb_spec (StartingLineNumber b) (StartingLineNumber a));
    [lia|].
  assert (Sa : Split (Lines a) = la) by (rewrite Ea; apply Split_Join; assumption).
  assert (Sb : Split (Lines b) = lb) by (rewrite Eb; apply Split_Join; assumption).
  rewrite Sa, Sb.
  destruct (Z.ltb_spec ctxLines 0); [lia|].
  destruct (Z.ltb_spec (Overlap a b) 0); [lia|]. simpl orb. cbv iota.
  rewrite Hov. fold covered.
  destruct (Nat.leb_spec (List.length lb) covered) as [Hs|Hs].
  - destruct (Z.leb_spec (Z.of_nat (List.length lb))
                (StartingLineNumber a + Z.of_nat (List.length la)
                 - StartingLineNumber b)); [reflexivity|].
    unfold covered in Hs. lia.
  - destruct (Z.leb_spec (Z.of_nat (List.length lb))
                (StartingLineNumber a + Z.of_nat (List.length la)
                 - StartingLineNumber b)) as [Hz|Hz].
    + unfold covered in Hs. lia.
    + reflexivity.
Qed.

Lemma firstn_plus {A : Type} (n m : nat) (l : list A) :
  firstn (n + m) l = firstn n l ++ firstn m (skipn n l).
Proof.
  revert l. induction n as [|n IH]; intros l; [reflexivity|].
  destruct l as [|x l]; simpl.
  - rewrite firstn_nil. reflexivity.
  - rewrite IH. reflexivity.
Qed.

(** In terms of positions in one file: excerpts of the ranges [sa, ea) and
    [sb, eb) with [sa <= sb <= ea <= eb] combine into the range [sa, eb),
    each line once. *)
Lemma slice_merge {A : Type} (l : list A) (sa ea sb eb : nat) :
  (sa <= sb)%nat -> (sb <= ea)%nat -> (ea <= eb)%nat ->
  (eb <= List.length l)%nat ->
  slice l sa ea ++ skipn (ea - sb) (slice l sb eb) = slice l sa eb.
Proof.
  intros H1 H2 H3 H4. unfold slice.
  rewrite skipn_firstn_comm, skipn_skipn.
  replace (ea - sb + sb)%nat with ea by lia.
  replace (eb - sb - (ea - sb))%nat with (eb - ea)%nat by lia.
  replace (eb - sa)%nat with ((ea - sa) + (eb - ea))%nat by lia.
  rewrite firstn_plus, skipn_skipn.
  replace (ea - sa + sa)%nat with ea by lia. reflexivity.
Qed.

(** ** The excerpt of a match *)

Lemma excerptStart_mono (i ctxLines : Z) :
  excerptStart i ctxLines <= excerptStart (i + 1) ctxLines.
Proof. unfold excerptStart. destruct (0 <=? ctxLines); lia. Qed.

Lemma linesIfMatch_hunk (flines : list string) (projKey flagKey line : string)
    (aliases : list string) (i ctxLines : Z) (delimiters : string)
    (flines' : list string) (b : HunkRep) :
  0 <= i < GoInt.max_int -> ctxLines <= GoInt.max_int ->
  linesIfMatch flines projKey flagKey line aliases i ctxLines delimiters
  = Some (flines', Some b) ->
  StartingLineNumber b = excerptStart i ctxLines /\
  ProjKey b = projKey /\ FlagKey b = flagKey /\
  (ctxLines < 0 -> Lines b = EmptyString /\ flines' = flines).
Proof.
  intros Hi Hc. unfold linesIfMatch, excerptStart.
  destruct (negb (matchDelimiters line flagKey delimiters) && _);
    [discriminate|].
  unfold GoInt.max_int in *.
  destruct (Z.leb_spec 0 ctxLines) as [Hpos|Hneg].
  - rewrite (sub_in_range i ctxLines)
      by int_range.
    destruct (_ <=? _); [|discriminate].
    destruct (truncateAll _); [|discriminate].
    intros E. injection E as _ <-. simpl.
    destruct (Z.ltb_spec (i - ctxLines) 0).
    + rewrite add_in_range
        by int_range.
      repeat split; try lia.
    + rewrite add_in_range
        by int_range.
      repeat split; try lia.
  - intros E. injection E as <- <-. simpl.
    rewrite add_in_range
      by int_range.
    repeat split; reflexivity.
Qed.

(** ** Order and separation of the hunks of one flag *)

Lemma NumLines_pos (h : HunkRep) : 1 <= NumLines h.
Proof. unfold NumLines. pose proof (Count_nonneg (Lines h)). lia. Qed.

Lemma before_startsBefore (h1 h2 : HunkRep) :
  before h1 h2 -> startsBefore h1 h2.
Proof.
  unfold before, startsBefore, endLine. pose proof (NumLines_pos h1). lia.
Qed.

Section OrdPairs.

Context {A : Type} (R : A -> A -> Prop).

Lemma ForallOrdPairs_snoc (l : list A) (x : A) :
  ForallOrdPairs R (l ++ [x]) <->
  ForallOrdPairs R l /\ Forall (fun y => R y x) l.
Proof.
  induction l as [|y l IH]; simpl.
  - split; [intros _; split; constructor|].
    intros _. constructor; constructor.
  - split.
    + intros H. inversion H as [|? ? Hy Hl]; subst.
      apply IH in Hl. destruct Hl as [Hl Hx].
      apply Forall_app in Hy. destruct Hy as [Hy Hyx].
      split; constructor; auto. inversion Hyx; assumption.
    + intros [H Hx]. inversion H as [|? ? Hy Hl]; subst.
      inversion Hx as [|? ? Hyx Hlx]; subst.
      constructor.
      * apply Forall_app. split; [assumption|]. constructor; auto.
      * apply IH. split; assumption.
Qed.

Lemma ForallOrdPairs_impl (S : A -> A -> Prop) (l : list A) :
  (forall x y, R x y -> S x y) ->
  ForallOrdPairs R l -> ForallOrdPairs S l.
Proof.
  intros HRS H. induction H as [|x l Hx Hl IH]; constructor.
  - eapply Forall_impl; [|exact Hx]. intros y. apply HRS.
  - exact IH.
Qed.

End OrdPairs.

Lemma hunksInv_mono (ctxLines bound bound' : Z) (hs : list HunkRep) :
  bound <= bound' -> hunksInv ctxLines bound hs -> hunksInv ctxLines bound' hs.
Proof.
  intros Hb (H1 & H2 & H3). split; [exact H1|]. split.
  - eapply Forall_impl; [|exact H2]. simpl. intros; lia.
  - intros Hc. eapply Forall_impl; [|exact (H3 Hc)]. simpl. intros; lia.
Qed.

Lemma exists_last_or_nil {A : Type} (l : list A) :
  l = [] \/ exists l' x, l = l' ++ [x].
Proof.
  destruct l as [|y l]; [left; reflexivity|right].
  destruct (exists_last (l := y :: l)) as (l' & x & E); [discriminate|].
  exists l', x. exact E.
Qed.

(** One step of the loop keeps the invariant. *)
Lemma addMatch_hunksInv (ctxLines bound bound' : Z) (hs : list HunkRep)
    (b : HunkRep) :
  hunksInv ctxLines bound hs ->
  StartingLineNumber b = bound -> bound <= bound' ->
  (ctxLines < 0 -> endLine b <= bound') ->
  hunksInv ctxLines bound' (addMatch hs b ctxLines).
Proof.
  intros Hinv Hb Hbb Hend.
  assert (Happend :
    Forall (fun h => before h b) hs -> hunksInv ctxLines bound' (hs ++ [b])).
  { intros Hall. destruct (hunksInv_mono _ _ _ _ Hbb Hinv) as (H1 & H2 & H3).
    split; [apply ForallOrdPairs_snoc; split; [apply Hinv|exact Hall]|].
    split.
    - apply Forall_app. split; [exact H2|]. constructor; [lia|constructor].
    - intros Hc. apply Forall_app. split; [exact (H3 Hc)|].
      constructor; [exact (Hend Hc)|constructor]. }
  destruct (exists_last_or_nil hs) as [->|(hs' & a & ->)].
  - rewrite addMatch_nil. apply (Happend (Forall_nil _)).
  - rewrite addMatch_last.
    destruct Hinv as (H1 & H2 & H3).
    apply ForallOrdPairs_snoc in H1. destruct H1 as [H1 H1a].
    apply Forall_app in H2. destruct H2 as [H2 H2a].
    inversion H2a as [|? ? Ha _]; subst.
    destruct (Z.leb_spec 0 (Overlap a b)) as [Hov|Hov].
    + unfold mergeHunks.
      destruct (Z.ltb_spec (StartingLineNumber b) (StartingLineNumber a));
        [lia|].
      destruct (Z.ltb_spec ctxLines 0) as [Hc|Hc]; simpl orb; cbv iota.
      * change (hs' ++ [a; b]) with (hs' ++ [a] ++ [b]).
        rewrite app_assoc. apply Happend.
        eapply Forall_impl; [|exact (H3 Hc)]. unfold before. simpl.
        intros; lia.
      * destruct (Z.ltb_spec (Overlap a b) 0); [lia|].
        assert (Hkeep : forall m, StartingLineNumber m = StartingLineNumber a ->
                                  hunksInv ctxLines bound' (hs' ++ [m])).
        { intros m Hm. split; [|split].
          - apply ForallOrdPairs_snoc. split; [exact H1|].
            eapply Forall_impl; [|exact H1a]. unfold before. simpl.
            intros; lia.
          - apply Forall_app. split.
            + eapply Forall_impl; [|exact H2]. simpl. intros; lia.
            + constructor; [lia|constructor].
          - intros; lia. }
        destruct (_ <=? _); apply Hkeep; reflexivity.
    + rewrite app_assoc. apply Happend.
      assert (Hab : before a b) by (unfold before, endLine, Overlap in *; lia).
      apply Forall_app. split; [|constructor; [exact Hab|constructor]].
      eapply Forall_impl; [|exact H1a]. unfold before, endLine in *.
      simpl. intros h Hh. pose proof (NumLines_pos a). lia.
Qed.

Lemma aggregateFrom_hunksInv (projKey flagKey : string)
    (flagAliases : list string) (ctxLines : Z) (delimiters : string) :
  ctxLines <= GoInt.max_int ->
  forall (todo i : nat) (flines : list string) (hs : list HunkRep)
         (flines' : list string) (hs' : list HunkRep),
    Z.of_nat i + Z.of_nat todo <= GoInt.max_int ->
    hunksInv ctxLines (excerptStart (Z.of_nat i) ctxLines) hs ->
    aggregateFrom todo i flines hs projKey flagKey flagAliases ctxLines
      delimiters = Some (flines', hs') ->
    hunksInv ctxLines (excerptStart (Z.of_nat (i + todo)) ctxLines) hs'.
Proof.
  intros Hc. induction todo as [|todo IH]; intros i flines hs flines' hs' Hi Hinv.
  - simpl. intros E. injection E as _ <-.
    replace (i + 0)%nat with i by lia. exact Hinv.
  - simpl aggregateFrom.
    destruct (linesIfMatch flines projKey flagKey (nth i flines EmptyString)
                flagAliases (Z.of_nat i) ctxLines delimiters)
      as [[flines1 [b|]]|] eqn:El; [| |discriminate].
    + intros E. replace (i + S todo)%nat with (S i + todo)%nat by lia.
      apply (IH (S i) flines1 (addMatch hs b ctxLines) flines' hs');
        [lia| |exact E].
      apply linesIfMatch_hunk in El;
        [|unfold GoInt.max_int in *; lia|exact Hc].
      destruct El as (Hs & _ & _ & Hneg).
      apply (addMatch_hunksInv ctxLines (excerptStart (Z.of_nat i) ctxLines));
        [exact Hinv|exact Hs| |].
      * replace (Z.of_nat (S i)) with (Z.of_nat i + 1) by lia.
        apply excerptStart_mono.
      * intros Hn. destruct (Hneg Hn) as [Hl _].
        unfold endLine, NumLines. rewrite Hs, Hl. unfold excerptStart.
        destruct (Z.leb_spec 0 ctxLines); [lia|]. simpl Count. lia.
    + intros E. replace (i + S todo)%nat with (S i + todo)%nat by lia.
      apply (IH (S i) flines1 hs flines' hs'); [lia| |exact E].
      eapply hunksInv_mono; [|exact Hinv].
      replace (Z.of_nat (S i)) with (Z.of_nat i + 1) by lia.
      apply excerptStart_mono.
Qed.

(** ** Negative [ctxLines]: no context *)

Lemma filter_length_0 {A : Type} (f : A -> bool) (l : list A) :
  (Z.of_nat (List.length (filter f l)) =? 0) = negb (existsb f l).
Proof.
  induction l as [|x l IH]; simpl; [reflexivity|].
  destruct (f x); simpl; [|exact IH].
  destruct (Z.eqb_spec (Z.of_nat (S (List.length (filter f l)))) 0);
    [lia|reflexivity].
Qed.

Lemma linesIfMatch_no_match (flines : list string)
    (projKey flagKey line : string) (aliases : list string)
    (i ctxLines : Z) (delimiters : string) :
  lineMatches line flagKey aliases delimiters = false ->
  linesIfMatch flines projKey flagKey line aliases i ctxLines delimiters
  = Some (flines, None).
Proof.
  unfold lineMatches, linesIfMatch. intros H.
  apply orb_false_iff in H. destruct H as [Hm Ha].
  rewrite filter_length_0, Hm, Ha. reflexivity.
Qed.

Lemma linesIfMatch_no_context (flines : list string)
    (projKey flagKey line : string) (aliases : list string)
    (i ctxLines : Z) (delimiters : string) :
  ctxLines < 0 -> 0 <= i < GoInt.max_int ->
  lineMatches line flagKey aliases delimiters = true ->
  exists b,
    linesIfMatch flines projKey flagKey line aliases i ctxLines delimiters
    = Some (flines, Some b) /\
    StartingLineNumber b = i + 1 /\ Lines b = EmptyString.
Proof.
  unfold lineMatches, linesIfMatch. intros Hc Hi H.
  rewrite filter_length_0, <- negb_orb, H. simpl negb. cbv iota.
  destruct (Z.leb_spec 0 ctxLines); [lia|].
  eexists. split; [reflexivity|]. simpl. split; [|reflexivity].
  apply add_in_range.
  unfold GoInt.in_range, GoInt.min_int, GoInt.max_int in *. lia.
Qed.

Lemma addMatch_no_context (hs : list HunkRep) (b : HunkRep) (ctxLines : Z) :
  ctxLines < 0 ->
  Forall (fun h => StartingLineNumber h <= StartingLineNumber b) hs ->
  addMatch hs b ctxLines = hs ++ [b].
Proof.
  intros Hc Hall.
  destruct (exists_last_or_nil hs) as [->|(hs' & a & ->)]; [reflexivity|].
  rewrite addMatch_last. apply Forall_app in Hall. destruct Hall as [_ Ha].
  inversion Ha as [|? ? Hab _]; subst.
  destruct (0 <=? Overlap a b); [|apply app_assoc].
  unfold mergeHunks.
  destruct (Z.ltb_spec (StartingLineNumber b) (StartingLineNumber a)); [lia|].
  destruct (Z.ltb_spec ctxLines 0); [|lia].
  simpl orb. cbv iota. rewrite <- app_assoc. reflexivity.
Qed.

Lemma aggregateFrom_no_context (projKey flagKey : string)
    (flagAliases : list string) (ctxLines : Z) (delimiters : string) :
  ctxLines < 0 ->
  forall (rest pre : list string) (hs : list HunkRep),
    Z.of_nat (List.length (pre ++ rest)) <= GoInt.max_int ->
    Forall (fun h => StartingLineNumber h <= Z.of_nat (List.length pre)) hs ->
    exists hs',
      aggregateFrom (List.length rest) (List.length pre) (pre ++ rest) hs
        projKey flagKey flagAliases ctxLines delimiters
      = Some (pre ++ rest, hs ++ hs') /\
      map StartingLineNumber hs' =
        matchLineNumbers (Z.of_nat (List.length pre)) rest flagKey flagAliases
          delimiters /\
      Forall (fun h => Lines h = EmptyString) hs'.
Proof.
  intros Hc. induction rest as [|line rest IH]; intros pre hs Hlen Hall.
  - exists []. simpl. rewrite !app_nil_r. auto.
  - simpl aggregateFrom. simpl matchLineNumbers.
    rewrite nth_middle.
    assert (Hi : 0 <= Z.of_nat (List.length pre) < GoInt.max_int).
    { rewrite length_app in Hlen. simpl List.length in Hlen. lia. }
    assert (Epre : pre ++ line :: rest = (pre ++ [line]) ++ rest)
      by (rewrite <- app_assoc; reflexivity).
    assert (Elen : S (List.length pre) = List.length (pre ++ [line]))
      by (rewrite length_app; simpl; lia).
    destruct (lineMatches line flagKey flagAliases delimiters) eqn:Em.
    + destruct (linesIfMatch_no_context (pre ++ line :: rest) projKey flagKey
                  line flagAliases _ ctxLines delimiters Hc Hi Em)
        as (b & -> & Hs & Hl).
      rewrite addMatch_no_context;
        [|exact Hc|eapply Forall_impl; [|exact Hall]; simpl; intros; lia].
      rewrite Epre, Elen.
      destruct (IH (pre ++ [line]) (hs ++ [b])) as (hs' & E & Hm & Hls).
      * rewrite <- Epre. exact Hlen.
      * rewrite <- Elen. apply Forall_app. split.
        -- eapply Forall_impl; [|exact Hall]. simpl. intros; lia.
        -- constructor; [lia|constructor].
      * exists (b :: hs'). rewrite E.
        replace ((hs ++ [b]) ++ hs') with (hs ++ b :: hs')
          by (rewrite <- app_assoc; reflexivity).
        split; [reflexivity|].
        split; [|constructor; assumption].
        simpl map. rewrite Hs, Hm, <- Elen. f_equal.
        replace (Z.of_nat (S (List.length pre)))
          with (Z.of_nat (List.length pre) + 1) by lia.
        reflexivity.
    + rewrite linesIfMatch_no_match by exact Em.
      rewrite Epre, Elen.
      destruct (IH (pre ++ [line]) hs) as (hs' & E & Hm & Hls).
      * rewrite <- Epre. exact Hlen.
      * rewrite <- Elen. eapply Forall_impl; [|exact Hall].
        simpl. intros; lia.
      * exists hs'. rewrite E. split; [reflexivity|]. split; [|exact Hls].
        rewrite Hm, <- Elen.
        replace (Z.of_nat (S (List.length pre)))
          with (Z.of_nat (List.length pre) + 1) by lia.
        reflexivity.
Qed.

(** C6: with a negative [ctxLines], [aggregateHunksForFlag] returns, and
    leaves the file's lines as they were; it gives exactly one hunk for each
    line of interest, in order, located at that line and with an empty text.
    Hunks of neighbouring lines are not merged. *)
Theorem negative_context_one_empty_hunk_per_match
    (flines : list string) (projKey flagKey : string)
    (flagAliases : list string) (ctxLines : Z) (delimiters : string) :
  ctxLines < 0 ->
  Z.of_nat (List.length flines) <= GoInt.max_int ->
  exists hs : list HunkRep,
    aggregateHunksForFlag flines projKey flagKey flagAliases ctxLines
      delimiters = Some (flines, hs) /\
    map StartingLineNumber hs =
      matchLineNumbers 0 flines flagKey flagAliases delimiters /\
    Forall (fun h => Lines h = EmptyString) hs.
Proof.
  intros Hc Hlen.
  destruct (aggregateFrom_no_context projKey flagKey flagAliases ctxLines
              delimiters Hc flines [] [] Hlen (Forall_nil _))
    as (hs & E & Hm & Hl).
  exists hs. auto.
Qed.

Lemma negative_context_one_empty_hunk_per_match_witness :
  exists hs : list HunkRep,
    aggregateHunksForFlag ["a 'flag'"; "b 'flag'"; "c"; "d 'flag'"]
      "proj" "flag" [] (-1) "'"
    = Some (["a 'flag'"; "b 'flag'"; "c"; "d 'flag'"], hs) /\
    map StartingLineNumber hs = [1; 2; 4] /\
    Forall (fun h => Lines h = EmptyString) hs.
Proof.
  apply (negative_context_one_empty_hunk_per_match
           ["a 'flag'"; "b 'flag'"; "c"; "d 'flag'"] "proj" "flag" [] (-1) "'").
  - lia.
  - vm_compute. discriminate.
Defined.

(** ** The caps of [SearchForRefs] *)

Lemma hunkTotal_app (rs1 rs2 : list ReferenceHunksRep) :
  hunkTotal (rs1 ++ rs2) = hunkTotal rs1 + hunkTotal rs2.
Proof. induction rs1 as [|r rs1 IH]; simpl; lia. Qed.

Lemma hunkTotal_nonneg (rs : list ReferenceHunksRep) : 0 <= hunkTotal rs.
Proof. induction rs as [|r rs IH]; simpl; lia. Qed.

Lemma drain_file_cap (refs ret : list ReferenceHunksRep) (totalHunks : Z)
    (room : nat) :
  oneHunkEach refs ->
  totalHunks = Z.of_nat (List.length ret) ->
  Z.of_nat (List.length ret) + Z.of_nat room = maxFileCount ->
  (0 < room <= List.length refs)%nat ->
  drainReferences refs ret totalHunks = ret ++ firstn room refs.
Proof.
  revert ret totalHunks room.
  induction refs as [|r refs IH]; intros ret totalHunks room Hone Ht Hroom Hge.
  - simpl List.length in Hge. lia.
  - inversion Hone as [|? ? Hr Hrest]; subst.
    destruct room as [|room]; [lia|].
    cbn [drainReferences firstn]. rewrite length_app. cbn [List.length].
    destruct (Z.leb_spec maxFileCount
                (Z.of_nat (List.length ret + 1))) as [Hcap|Hcap].
    + assert (room = 0%nat) by lia. subst room. reflexivity.
    + rewrite Hr. rewrite add_in_range
        by (unfold maxFileCount in *; int_range).
      destruct (Z.ltb_spec maxHunkCount
                  (Z.of_nat (List.length ret) + Z.of_nat 1)) as [Hh|Hh];
        [unfold maxHunkCount, maxFileCount in *; lia|].
      rewrite (IH (ret ++ [r]) _ room); try assumption.
      * rewrite <- app_assoc. reflexivity.
      * rewrite length_app. cbn [List.length]. lia.
      * rewrite length_app. cbn [List.length]. lia.
      * cbn [List.length] in Hge. lia.
Qed.

Lemma drain_hunk_cap (refs ret : list ReferenceHunksRep) (totalHunks : Z) :
  countsFit refs ->
  totalHunks = hunkTotal ret ->
  hunkTotal ret <= maxHunkCount ->
  Z.of_nat (List.length ret) + Z.of_nat (List.length refs) < maxFileCount ->
  maxHunkCount < hunkTotal ret + hunkTotal refs ->
  exists k : nat,
    (k < List.length refs)%nat /\
    drainReferences refs ret totalHunks = ret ++ firstn (S k) refs /\
    hunkTotal (ret ++ firstn k refs) <= maxHunkCount /\
    maxHunkCount < hunkTotal (ret ++ firstn (S k) refs).
Proof.
  revert ret totalHunks.
  induction refs as [|r refs IH]; intros ret totalHunks Hfit Ht Hle Hfiles Hgt.
  - simpl in Hgt. lia.
  - inversion Hfit as [|? ? Hr Hrest]; subst.
    simpl drainReferences. rewrite length_app. simpl List.length in *.
    destruct (Z.leb_spec maxFileCount (Z.of_nat (List.length ret + 1)));
      [lia|].
    pose proof (hunkTotal_nonneg ret) as Hnn.
    rewrite add_in_range
      by (unfold maxHunkCount in *; int_range).
    destruct (Z.ltb_spec maxHunkCount
                (hunkTotal ret + Z.of_nat (List.length (Hunks r))))
      as [Hstop|Hgo].
    + exists 0%nat. simpl firstn. rewrite app_nil_r.
      rewrite hunkTotal_app. simpl hunkTotal.
      repeat split; [lia|assumption|lia].
    + destruct (IH (ret ++ [r])
                  (hunkTotal ret + Z.of_nat (List.length (Hunks r))))
        as (k & Hk & E & Hbefore & Hafter); try assumption.
      * rewrite hunkTotal_app. simpl. lia.
      * rewrite hunkTotal_app. simpl. lia.
      * rewrite length_app. simpl List.length. lia.
      * rewrite hunkTotal_app. simpl hunkTotal in *. lia.
      * exists (S k).
        rewrite <- !app_assoc in *. simpl app in *. simpl firstn.
        repeat split; [lia|assumption|assumption|assumption].
Qed.

Lemma drain_prefix (refs ret : list ReferenceHunksRep) (totalHunks : Z) :
  countsFit refs ->
  totalHunks = hunkTotal ret ->
  hunkTotal ret <= maxHunkCount ->
  Z.of_nat (List.length ret) < maxFileCount ->
  exists k : nat,
    (k <= List.length refs)%nat /\
    drainReferences refs ret totalHunks = ret ++ firstn k refs /\
    (forall j : nat, (j < k)%nat ->
       Z.of_nat (List.length ret + j) < maxFileCount /\
       hunkTotal (ret ++ firstn j refs) <= maxHunkCount) /\
    ((k < List.length refs)%nat ->
       Z.of_nat (List.length ret + k) = maxFileCount \/
       maxHunkCount < hunkTotal (ret ++ firstn k refs)).
Proof.
  revert ret totalHunks.
  induction refs as [|r refs IH]; intros ret totalHunks Hfit Ht Hle Hfiles.
  - exists 0%nat. cbn [firstn List.length]. rewrite app_nil_r.
    split; [lia|]. split; [reflexivity|]. split; intros; lia.
  - inversion Hfit as [|? ? Hr Hrest]; subst.
    assert (Hone : forall j : nat, (j < 1)%nat ->
              Z.of_nat (List.length ret + j) < maxFileCount /\
              hunkTotal (ret ++ firstn j (r :: refs)) <= maxHunkCount).
    { intros j Hj. assert (j = 0%nat) by lia. subst j.
      cbn [firstn]. rewrite app_nil_r. split; [lia|assumption]. }
    cbn [drainReferences]. rewrite length_app. cbn [List.length].
    destruct (Z.leb_spec maxFileCount (Z.of_nat (List.length ret + 1)))
      as [Hcap|Hroom].
    + exists 1%nat. cbn [firstn].
      split; [lia|]. split; [reflexivity|]. split; [exact Hone|].
      intros _. left. lia.
    + pose proof (hunkTotal_nonneg ret) as Hnn.
      rewrite add_in_range
        by (unfold maxHunkCount in *; int_range).
      destruct (Z.ltb_spec maxHunkCount
                  (hunkTotal ret + Z.of_nat (List.length (Hunks r))))
        as [Hstop|Hgo].
      * exists 1%nat. cbn [firstn].
        split; [lia|]. split; [reflexivity|]. split; [exact Hone|].
        intros _. right.
        rewrite hunkTotal_app. cbn [hunkTotal]. lia.
      * destruct (IH (ret ++ [r])
                    (hunkTotal ret + Z.of_nat (List.length (Hunks r))))
          as (k & Hk & E & Hbefore & Hafter); try assumption.
        -- rewrite hunkTotal_app. cbn [hunkTotal]. lia.
        -- rewrite hunkTotal_app. cbn [hunkTotal]. lia.
        -- rewrite length_app. cbn [List.length]. lia.
        -- exists (S k). rewrite length_app in *. cbn [List.length] in *.
           cbn [firstn]. split; [lia|]. split; [|split].
           ++ rewrite E, <- app_assoc. reflexivity.
           ++ intros j Hj. destruct j as [|j].
              ** cbn [firstn]. rewrite app_nil_r. split; [lia|assumption].
              ** cbn [firstn].
                 replace (ret ++ r :: firstn j refs)
                   with ((ret ++ [r]) ++ firstn j refs)
                   by (rewrite <- app_assoc; reflexivity).
                 replace (List.length ret + S j)%nat
                   with (List.length ret + 1 + j)%nat by lia.
                 apply Hbefore. lia.
           ++ intros Hlt.
              replace (ret ++ r :: firstn k refs)
                with ((ret ++ [r]) ++ firstn k refs)
                by (rewrite <- app_assoc; reflexivity).
              replace (List.length ret + S k)%nat
                with (List.length ret + 1 + k)%nat by lia.
              apply Hafter. lia.
Qed.

(** C7: the consuming loop of [SearchForRefs] enforces both caps.  When at
    least [maxFileCount] references arrive (for instance 20,000), each with
    exactly one hunk, the loop returns the first [maxFileCount] of them,
    exactly 10,000 entries.  When fewer than [maxFileCount] references
    arrive and they have more than [maxHunkCount] hunks together (for
    instance 30,000), the loop returns a prefix of the arrivals that ends
    with the first reference at which the running total exceeds
    [maxHunkCount]: nothing is accepted after it, and before it the total
    was within the cap.  In general the loop returns a prefix of the
    arrivals, no error; no shorter non-empty prefix reaches a cap, and when
    some arrival is left out the returned prefix has [maxFileCount] entries
    or more than [maxHunkCount] hunks. *)
Theorem SearchForRefs_enforces_caps :
  (forall refs : list ReferenceHunksRep,
      oneHunkEach refs ->
      maxFileCount <= Z.of_nat (List.length refs) ->
      SearchForRefs refs = firstn (Z.to_nat maxFileCount) refs /\
      Z.of_nat (List.length (SearchForRefs refs)) = maxFileCount)
  /\
  (forall refs : list ReferenceHunksRep,
      countsFit refs ->
      Z.of_nat (List.length refs) < maxFileCount ->
      maxHunkCount < hunkTotal refs ->
      exists k : nat,
        (k < List.length refs)%nat /\
        SearchForRefs refs = firstn (S k) refs /\
        hunkTotal (firstn k refs) <= maxHunkCount /\
        maxHunkCount < hunkTotal (firstn (S k) refs))
  /\
  (forall refs : list ReferenceHunksRep,
      countsFit refs ->
      exists k : nat,
        (k <= List.length refs)%nat /\
        SearchForRefs refs = firstn k refs /\
        (forall j : nat, (j < k)%nat ->
           Z.of_nat j < maxFileCount /\
           hunkTotal (firstn j refs) <= maxHunkCount) /\
        ((k < List.length refs)%nat ->
           Z.of_nat k = maxFileCount \/
           maxHunkCount < hunkTotal (firstn k refs))).
Proof.
  split; [|split].
  - intros refs Hone Hlen.
    assert (E : SearchForRefs refs = firstn (Z.to_nat maxFileCount) refs).
    { unfold SearchForRefs.
      rewrite (drain_file_cap refs [] 0 (Z.to_nat maxFileCount));
        [reflexivity|exact Hone|reflexivity| |].
      - cbn [List.length]. unfold maxFileCount. lia.
      - unfold maxFileCount in *. lia. }
    split; [exact E|]. rewrite E, firstn_length_le; unfold maxFileCount in *; lia.
  - intros refs Hfit Hlen Htotal. unfold SearchForRefs.
    destruct (drain_hunk_cap refs [] 0 Hfit) as (k & Hk & E & Hb & Ha).
    + reflexivity.
    + cbn [hunkTotal]. unfold maxHunkCount. lia.
    + cbn [List.length]. lia.
    + cbn [hunkTotal]. lia.
    + exists k. auto.
  - intros refs Hfit. unfold SearchForRefs.
    destruct (drain_prefix refs [] 0 Hfit) as (k & Hk & E & Hb & Ha).
    + reflexivity.
    + cbn [hunkTotal]. unfold maxHunkCount. lia.
    + cbn [List.length]. unfold maxFileCount. lia.
    + exists k. auto.
Qed.

Lemma Forall_repeat {A : Type} (P : A -> Prop) (x : A) (n : nat) :
  P x -> Forall P (repeat x n).
Proof. intros H. induction n; simpl; constructor; assumption. Defined.

Lemma SearchForRefs_enforces_caps_witness :
  Z.of_nat (List.length
              (SearchForRefs (repeat (referenceOf 1) (Z.to_nat 20000))))
  = 10000
  /\
  (exists k : nat,
    (k < 30)%nat /\
    SearchForRefs (repeat (referenceOf 1000) 30)
    = firstn (S k) (repeat (referenceOf 1000) 30) /\
    hunkTotal (firstn k (repeat (referenceOf 1000) 30)) <= 25000 /\
    25000 < hunkTotal (firstn (S k) (repeat (referenceOf 1000) 30)))
  /\
  (exists k : nat,
    (k <= 30)%nat /\
    SearchForRefs (repeat (referenceOf 1000) 30)
    = firstn k (repeat (referenceOf 1000) 30)).
Proof.
  split; [|split].
  - apply (proj1 SearchForRefs_enforces_caps
             (repeat (referenceOf 1) (Z.to_nat 20000))).
    + apply Forall_repeat. reflexivity.
    + vm_compute. discriminate.
  - apply (proj1 (proj2 SearchForRefs_enforces_caps)
             (repeat (referenceOf 1000) 30)).
    + apply Forall_repeat. vm_compute. discriminate.
    + vm_compute. reflexivity.
    + vm_compute. reflexivity.
  - destruct (proj2 (proj2 SearchForRefs_enforces_caps)
                (repeat (referenceOf 1000) 30)) as (k & Hk & E & _).
    + apply Forall_repeat. vm_compute. discriminate.
    + exists k. split; [exact Hk|exact E].
Defined.

(** ** Truncation *)

(** A line is left as it is when it has at most [maxLineCharCount] bytes. *)
Lemma truncateLine_within (line : string) :
  len line <= maxLineCharCount -> truncateLine line = Some line.
Proof.
  intros H. unfold truncateLine.
  destruct (Z.leb_spec (len line) maxLineCharCount); [reflexivity|lia].
Qed.

(** A line of more than [maxLineCharCount] bytes and at least as many runes
    is cut after its first [maxLineCharCount] runes, and the marker is
    appended. *)
Lemma truncateLine_beyond (line : string) :
  maxLineCharCount < len line ->
  maxLineCharCount <= Z.of_nat (List.length (Utf8.runes line)) ->
  truncateLine line =
  Some (Utf8.of_runes (firstn 500 (Utf8.runes line)) ++ ellipsis)%string.
Proof.
  intros Hb Hr. unfold truncateLine.
  destruct (Z.leb_spec (len line) maxLineCharCount); [lia|].
  destruct (Z.leb_spec maxLineCharCount
              (Z.of_nat (List.length (Utf8.runes line)))); [|lia].
  reflexivity.
Qed.

Lemma of_runes_app (rs1 rs2 : list Z) :
  Utf8.of_runes (rs1 ++ rs2)
  = (Utf8.of_runes rs1 ++ Utf8.of_runes rs2)%string.
Proof.
  induction rs1 as [|r rs1 IH]; cbn [Utf8.of_runes app]; [reflexivity|].
  rewrite IH. generalize (Utf8.encode r) as e.
  induction e as [|ch e IHe]; simpl; [reflexivity|]. rewrite IHe. reflexivity.
Qed.

(** A line of valid UTF-8 (decoding and encoding gives it back) is cut
    between two characters: what is kept is the encoding of the first 500
    characters, and the line is this prefix followed by the encoding of its
    other characters. *)
Lemma truncateLine_cuts_between_characters (line : string) :
  Utf8.of_runes (Utf8.runes line) = line ->
  maxLineCharCount < len line ->
  maxLineCharCount <= Z.of_nat (List.length (Utf8.runes line)) ->
  exists kept rest : string,
    truncateLine line = Some (kept ++ ellipsis)%string /\
    line = (kept ++ rest)%string /\
    kept = Utf8.of_runes (firstn 500 (Utf8.runes line)) /\
    rest = Utf8.of_runes (skipn 500 (Utf8.runes line)) /\
    List.length (Utf8.runes line)
    = (500 + List.length (skipn 500 (Utf8.runes line)))%nat.
Proof.
  intros Hvalid Hb Hr.
  exists (Utf8.of_runes (firstn 500 (Utf8.runes line))),
         (Utf8.of_runes (skipn 500 (Utf8.runes line))).
  split; [apply truncateLine_beyond; assumption|].
  split; [rewrite <- of_runes_app, firstn_skipn; symmetry; exact Hvalid|].
  split; [reflexivity|]. split; [reflexivity|].
  rewrite length_skipn. unfold maxLineCharCount in Hr. lia.
Qed.

(** 10,000 ASCII characters are cut to the first 500 and the marker. *)
Lemma truncateLine_ascii_10000 :
  truncateLine (replicate (Z.to_nat 10000) "a")
  = Some (replicate 500 "a" ++ ellipsis)%string.
Proof. vm_compute. reflexivity. Qed.

Lemma truncateAll_within (ls : list string) :
  Forall (fun line => len line <= maxLineCharCount) ls ->
  truncateAll ls = Some ls.
Proof.
  induction 1 as [|line ls Hl _ IH]; simpl; [reflexivity|].
  rewrite (truncateLine_within line Hl), IH. reflexivity.
Qed.

(** ** Matching comes before truncation *)

(** In a file of one line, with no context, the line is tested as it is and
    the text of the hunk is the truncated line. *)
Lemma single_line_hunk (line projKey flagKey : string)
    (aliases : list string) (delimiters text : string) :
  lineMatches line flagKey aliases delimiters = true ->
  truncateLine line = Some text ->
  exists al,
    aggregateHunksForFlag [line] projKey flagKey aliases 0 delimiters
    = Some ([text], [mkHunkRep projKey flagKey 1 text al]).
Proof.
  intros Hm Ht. unfold aggregateHunksForFlag. cbn [List.length aggregateFrom nth].
  unfold linesIfMatch. unfold lineMatches in Hm.
  rewrite filter_length_0, <- negb_orb, Hm. cbn [negb].
  change (GoInt.sub (Z.of_nat 0) 0) with 0.
  change (GoInt.add (GoInt.add (Z.of_nat 0) 0) 1) with 1.
  change (Z.of_nat (List.length [line])) with 1.
  change (GoInt.add 0 1) with 1.
  cbn [Z.leb Z.ltb Z.compare Pos.compare Pos.compare_cont Z.to_nat].
  change (Pos.to_nat 1) with 1%nat. change (GoInt.add 0 1) with 1.
  unfold slice. cbn [Nat.sub firstn skipn truncateAll app].
  rewrite Ht. cbn [Join app aggregateFrom]. eexists. reflexivity.
Qed.

(** C10: there is a line longer than [maxLineCharCount] whose only
    occurrence of the flag key lies beyond the truncation limit and for
    which a hunk is produced all the same: the line is matched as it was
    read, and the text of the hunk, cut afterwards, no longer contains the
    flag key. *)
Theorem hunk_text_may_lose_the_flag_key :
  exists line text : string,
    maxLineCharCount < len line /\
    matchDelimiters line "flag" "'" = true /\
    aggregateHunksForFlag [line] "proj" "flag" [] 0 "'"
    = Some ([text], [mkHunkRep "proj" "flag" 1 text []]) /\
    truncateLine line = Some text /\
    Contains text "flag" = false.
Proof.
  exists flagBeyondLimit, (replicate 500 "a" ++ ellipsis)%string.
  repeat split; vm_compute; reflexivity.
Qed.

(** ** Files whose lines need no truncation *)

Lemma slice_rebuild {A : Type} (l : list A) (lo hi : nat) :
  (lo <= hi)%nat ->
  firstn lo l ++ slice l lo hi ++ skipn hi l = l.
Proof.
  intros H. unfold slice.
  replace (skipn hi l) with (skipn (hi - lo) (skipn lo l))
    by (rewrite skipn_skipn; f_equal; lia).
  rewrite firstn_skipn. apply firstn_skipn.
Qed.

Lemma Forall_slice {A : Type} (P : A -> Prop) (l : list A) (lo hi : nat) :
  Forall P l -> Forall P (slice l lo hi).
Proof.
  unfold slice. intros H.
  assert (Hs : Forall P (skipn lo l)).
  { clear hi. revert lo. induction H as [|x l Hx Hl IH]; intros [|lo]; simpl;
      try constructor; auto. }
  generalize (hi - lo)%nat as n. induction Hs as [|x l' Hx Hl IH];
    intros [|n]; simpl; constructor; auto.
Qed.

Lemma shortLines_slice (ls : list string) (lo hi : nat) :
  shortLines ls -> shortLines (slice ls lo hi).
Proof. apply Forall_slice. Qed.

(** On short lines [linesIfMatch] writes nothing new into the file, and the
    excerpt is the window of the match. *)
Lemma linesIfMatch_short (flines : list string) (projKey flagKey line : string)
    (aliases : list string) (i c : nat) (delimiters : string) :
  shortLines flines ->
  (i < List.length flines)%nat ->
  Z.of_nat (List.length flines) + Z.of_nat c < GoInt.max_int ->
  linesIfMatch flines projKey flagKey line aliases (Z.of_nat i) (Z.of_nat c)
    delimiters
  = Some (flines,
          if lineMatches line flagKey aliases delimiters
          then Some (mkHunkRep projKey flagKey (Z.of_nat (i - c) + 1)
                       (Join (slice flines (fst (window (List.length flines) c i))
                                (snd (window (List.length flines) c i))))
                       (hunkAliases line aliases))
          else None).
Proof.
  intros Hshort Hi Hfit. unfold linesIfMatch, lineMatches, window, hunkAliases.
  cbn [fst snd]. rewrite filter_length_0, <- negb_orb.
  destruct (matchDelimiters line flagKey delimiters
            || existsb (fun alias => Contains line alias) aliases);
    cbn [negb]; [|reflexivity].
  unfold GoInt.max_int in Hfit.
  destruct (Z.leb_spec 0 (Z.of_nat c)); [|lia].
  rewrite (sub_in_range (Z.of_nat i) (Z.of_nat c))
    by int_range.
  rewrite (add_in_range (Z.of_nat i) (Z.of_nat c))
    by int_range.
  rewrite (add_in_range (Z.of_nat i + Z.of_nat c) 1)
    by int_range.
  assert (Hs : (if Z.of_nat i - Z.of_nat c <? 0 then 0
                else Z.of_nat i - Z.of_nat c) = Z.of_nat (i - c)).
  { destruct (Z.ltb_spec (Z.of_nat i - Z.of_nat c) 0); lia. }
  assert (He : (if Z.of_nat (List.length flines)
                   <=? Z.of_nat i + Z.of_nat c + 1
                then Z.of_nat (List.length flines)
                else Z.of_nat i + Z.of_nat c + 1)
               = Z.of_nat (Nat.min (List.length flines) (i + c + 1))).
  { destruct (Z.leb_spec (Z.of_nat (List.length flines))
                (Z.of_nat i + Z.of_nat c + 1)); lia. }
  rewrite Hs, He, !Nat2Z.id.
  destruct (Z.leb_spec (Z.of_nat (i - c))
              (Z.of_nat (Nat.min (List.length flines) (i + c + 1)))); [|lia].
  rewrite (truncateAll_within _ (shortLines_slice _ _ _ Hshort)).
  rewrite slice_rebuild by lia.
  rewrite add_in_range
    by int_range.
  reflexivity.
Qed.

(** ** The hunks of a flag as the cover of its excerpt windows *)

Lemma slice_length {A : Type} (l : list A) (lo hi : nat) :
  (hi <= List.length l)%nat -> List.length (slice l lo hi) = (hi - lo)%nat.
Proof.
  intros H. unfold slice. rewrite firstn_length_le; [reflexivity|].
  rewrite length_skipn. lia.
Qed.

Lemma slice_not_nil {A : Type} (l : list A) (lo hi : nat) :
  (lo < hi <= List.length l)%nat -> slice l lo hi <> [].
Proof.
  intros H E. apply (f_equal (@List.length A)) in E.
  rewrite slice_length in E by lia. simpl in E. lia.
Qed.

Lemma forallb_slice {A : Type} (f : A -> bool) (l : list A) (lo hi : nat) :
  forallb f l = true -> forallb f (slice l lo hi) = true.
Proof.
  rewrite !forallb_forall. intros H x Hx. apply H.
  assert (HF : Forall (fun y => In y l) (slice l lo hi)).
  { apply Forall_slice. apply Forall_forall. auto. }
  rewrite Forall_forall in HF. apply HF. exact Hx.
Qed.

Lemma tracks_next (flines : list string) (c i : nat) (hs : list HunkRep)
    (cur : option (nat * nat)) :
  tracks flines c i hs cur -> tracks flines c (S i) hs cur.
Proof.
  destruct cur as [[clo chi]|]; [|auto].
  intros (hs' & a & E & Hs & Hl & Hr & Hlo & Hhi).
  exists hs', a. repeat split; try assumption; lia.
Qed.

(** One step of the aggregation follows one step of the cover. *)
Lemma addMatch_extendCover (flines : list string) (c i : nat)
    (hs : list HunkRep) (cur : option (nat * nat)) (b : HunkRep) :
  forallb oneLine flines = true ->
  (i < List.length flines)%nat ->
  tracks flines c i hs cur ->
  located b = excerptOf flines (window (List.length flines) c i) ->
  tracks flines c (S i) (addMatch hs b (Z.of_nat c))
    (snd (extendCover cur (window (List.length flines) c i))) /\
  map located (removelast (addMatch hs b (Z.of_nat c))) =
  map located (removelast hs)
  ++ map (excerptOf flines)
       (fst (extendCover cur (window (List.length flines) c i))).
Proof.
  intros Hone Hi Htr Hb. unfold located, excerptOf, window in Hb.
  cbn [fst snd] in Hb. injection Hb as Hbs Hbl.
  assert (Hnew : forall hs0 m,
            StartingLineNumber m = Z.of_nat (i - c) + 1 ->
            Lines m = Join (slice flines (i - c) (Nat.min (List.length flines) (i + c + 1))) ->
            tracks flines c (S i) (hs0 ++ [m])
              (Some ((i - c)%nat, Nat.min (List.length flines) (i + c + 1)))).
  { intros hs0 m Hs Hl. exists hs0, m. repeat split; auto; lia. }
  destruct cur as [[clo chi]|]; unfold window; cbn [extendCover fst snd].
  - destruct Htr as (hs' & a & -> & Has & Hal & Hr & Hlo & Hhi).
    rewrite removelast_last.
    assert (Hla : slice flines clo chi <> []) by (apply slice_not_nil; lia).
    assert (Hlb : slice flines (i - c) (Nat.min (List.length flines) (i + c + 1)) <> [])
      by (apply slice_not_nil; lia).
    pose proof (forallb_slice oneLine flines clo chi Hone) as Ola.
    pose proof (forallb_slice oneLine flines (i - c) (Nat.min (List.length flines) (i + c + 1))
                  Hone) as Olb.
    assert (Lla : List.length (slice flines clo chi) = (chi - clo)%nat)
      by (apply slice_length; lia).
    assert (Llb : List.length (slice flines (i - c) (Nat.min (List.length flines) (i + c + 1)))
                  = (Nat.min (List.length flines) (i + c + 1) - (i - c))%nat)
      by (apply slice_length; lia).
    destruct (Nat.leb_spec (i - c) chi) as [Htouch|Hapart]; cbn [fst snd].
    + rewrite (addMatch_merge_lines hs' a b _ _ (Z.of_nat c)
                 ltac:(lia) Hla Hlb Ola Olb Hal Hbl ltac:(lia)
                 ltac:(rewrite Lla; lia)).
      rewrite removelast_last, app_nil_r. split; [|reflexivity].
      rewrite Lla, Llb, Has, Hbs.
      replace (Z.to_nat (Z.of_nat clo + 1 + Z.of_nat (chi - clo)
                         - (Z.of_nat (i - c) + 1)))
        with (chi - (i - c))%nat by lia.
      destruct (Nat.leb_spec (Nat.min (List.length flines) (i + c + 1) - (i - c))
                  (chi - (i - c))) as [Hsub|Hext].
      * exists hs', a.
        replace (Nat.max chi (Nat.min (List.length flines) (i + c + 1))) with chi by lia.
        repeat split; auto; lia.
      * exists hs', (merged a b
                       (slice flines clo chi
                        ++ skipn (chi - (i - c))
                             (slice flines (i - c) (Nat.min (List.length flines) (i + c + 1))))).

        replace (Nat.max chi (Nat.min (List.length flines) (i + c + 1)))
          with (Nat.min (List.length flines) (i + c + 1)) by lia.
        rewrite slice_merge by (lia).
        repeat split; auto; lia.
    + rewrite addMatch_last.
      assert (Hov : Overlap a b < 0).
      { unfold Overlap. rewrite (NumLines_Join a _ Hla Ola Hal), Lla. lia. }
      destruct (Z.leb_spec 0 (Overlap a b)); [lia|].
      rewrite !app_assoc, removelast_last. split.
      * apply Hnew; assumption.
      * rewrite map_app. cbn [map]. unfold located at 2, excerptOf.
        cbn [fst snd]. rewrite Has, Hal. reflexivity.
  - red in Htr. subst hs. rewrite addMatch_nil. cbn [removelast map app].
    split; [|reflexivity]. apply (Hnew [] b); assumption.
Qed.

Lemma aggregateFrom_cover (flines : list string) (projKey flagKey : string)
    (flagAliases : list string) (c : nat) (delimiters : string) :
  shortLines flines ->
  forallb oneLine flines = true ->
  Z.of_nat (List.length flines) + Z.of_nat c < GoInt.max_int ->
  forall (rest pre : list string) (hs : list HunkRep)
         (cur : option (nat * nat)),
    flines = pre ++ rest ->
    tracks flines c (List.length pre) hs cur ->
    exists hs' : list HunkRep,
      aggregateFrom (List.length rest) (List.length pre) flines hs
        projKey flagKey flagAliases (Z.of_nat c) delimiters
      = Some (flines, hs') /\
      map located hs' =
      map located (removelast hs)
      ++ map (excerptOf flines)
           (coverFrom (List.length flines) c (List.length pre) rest cur
              flagKey flagAliases delimiters).
Proof.
  intros Hshort Hone Hfit.
  induction rest as [|line rest IH]; intros pre hs cur Efl Htr.
  - exists hs. split; [reflexivity|]. cbn [coverFrom].
    destruct cur as [[clo chi]|].
    + destruct Htr as (hs0 & a & -> & Has & Hal & _).
      rewrite removelast_last, map_app. cbn [map].
      unfold located at 2, excerptOf. cbn [fst snd]. rewrite Has, Hal.
      reflexivity.
    + red in Htr. subst hs. reflexivity.
  - assert (Hi : (List.length pre < List.length flines)%nat).
    { rewrite Efl, length_app. cbn [List.length]. lia. }
    assert (Epre : flines = (pre ++ [line]) ++ rest)
      by (rewrite <- app_assoc; exact Efl).
    assert (Elen : S (List.length pre) = List.length (pre ++ [line]))
      by (rewrite length_app; cbn [List.length]; lia).
    cbn [aggregateFrom coverFrom List.length].
    assert (Enth : nth (List.length pre) flines EmptyString = line)
      by (rewrite Efl; apply nth_middle).
    rewrite Enth.
    rewrite (linesIfMatch_short flines projKey flagKey line flagAliases
               (List.length pre) c delimiters Hshort Hi Hfit).
    destruct (lineMatches line flagKey flagAliases delimiters).
    + set (b := mkHunkRep projKey flagKey
                  (Z.of_nat (List.length pre - c) + 1)
                  (Join (slice flines
                           (fst (window (List.length flines) c
                                   (List.length pre)))
                           (snd (window (List.length flines) c
                                   (List.length pre)))))
                  (hunkAliases line flagAliases)).
      destruct (addMatch_extendCover flines c (List.length pre) hs cur b
                  Hone Hi Htr eq_refl) as [Htr' Hmap].
      rewrite Elen in Htr'.
      destruct (IH (pre ++ [line]) _ _ Epre Htr') as (hs' & E & Hm).
      rewrite <- Elen in E, Hm.
      exists hs'. split; [exact E|].
      rewrite Hm, Hmap, map_app, app_assoc. reflexivity.
    + apply tracks_next in Htr. rewrite Elen in Htr.
      destruct (IH (pre ++ [line]) _ _ Epre Htr) as (hs' & E & Hm).
      rewrite <- Elen in E, Hm.
      exists hs'. split; [exact E|exact Hm].
Qed.

(** On a file whose lines are single lines of at most [maxLineCharCount]
    bytes, and for [c] context lines, [aggregateHunksForFlag] returns, with
    the file as it was, one hunk for each maximal range of the union of the
    excerpt windows: it starts at the first line of the range and its text
    is the lines of the range, each once. *)
Lemma aggregate_is_cover (flines : list string) (projKey flagKey : string)
    (flagAliases : list string) (c : nat) (delimiters : string) :
  shortLines flines ->
  forallb oneLine flines = true ->
  Z.of_nat (List.length flines) + Z.of_nat c < GoInt.max_int ->
  exists hs : list HunkRep,
    aggregateHunksForFlag flines projKey flagKey flagAliases (Z.of_nat c)
      delimiters = Some (flines, hs) /\
    map located hs =
    map (excerptOf flines)
      (coverFrom (List.length flines) c 0 flines None
         flagKey flagAliases delimiters).
Proof.
  intros Hshort Hone Hfit.
  destruct (aggregateFrom_cover flines projKey flagKey flagAliases c
              delimiters Hshort Hone Hfit flines [] [] None eq_refl eq_refl)
    as (hs & E & Hm).
  exists hs. split; [exact E|exact Hm].
Qed.

Lemma aggregateFrom_short (flines : list string) (projKey flagKey : string)
    (flagAliases : list string) (c : nat) (delimiters : string) :
  shortLines flines ->
  Z.of_nat (List.length flines) + Z.of_nat c < GoInt.max_int ->
  forall (todo i : nat) (hs : list HunkRep),
    (i + todo <= List.length flines)%nat ->
    exists hs' : list HunkRep,
      aggregateFrom todo i flines hs projKey flagKey flagAliases (Z.of_nat c)
        delimiters = Some (flines, hs').
Proof.
  intros Hshort Hfit. induction todo as [|todo IH]; intros i hs Hi.
  - exists hs. reflexivity.
  - cbn [aggregateFrom].
    rewrite (linesIfMatch_short flines projKey flagKey _ flagAliases i c
               delimiters Hshort ltac:(lia) Hfit).
    destruct (lineMatches _ flagKey flagAliases delimiters);
      apply IH; lia.
Qed.

(** On short lines, and with a context that fits the machine integers,
    [aggregateHunksForFlag] returns and leaves the lines as they were. *)
Lemma aggregate_returns_on_short_lines (flines : list string)
    (projKey flagKey : string) (flagAliases : list string) (ctxLines : Z)
    (delimiters : string) :
  shortLines flines ->
  Z.of_nat (List.length flines) + Z.max 0 ctxLines < GoInt.max_int ->
  exists hs : list HunkRep,
    aggregateHunksForFlag flines projKey flagKey flagAliases ctxLines
      delimiters = Some (flines, hs).
Proof.
  intros Hshort Hfit. destruct (Z.lt_ge_cases ctxLines 0) as [Hneg|Hpos].
  - destruct (aggregateFrom_no_context projKey flagKey flagAliases ctxLines
                delimiters Hneg flines [] [] ltac:(simpl app; lia)
                (Forall_nil _)) as (hs & E & _).
    exists hs. exact E.
  - replace ctxLines with (Z.of_nat (Z.to_nat ctxLines)) by lia.
    apply aggregateFrom_short; [exact Hshort|lia|lia].
Qed.

(** [toHunks] on short lines: every flag is searched in the lines as they
    were read, and the file is left as it was. *)
Lemma toHunksFrom_short (flines : list string) (projKey : string)
    (ctxLines : Z) (delimiters : string) :
  shortLines flines ->
  Z.of_nat (List.length flines) + Z.max 0 ctxLines < GoInt.max_int ->
  forall (aliases : list (string * list string)) (hunks : list HunkRep),
    exists hunks' : list HunkRep,
      toHunksFrom flines hunks projKey aliases ctxLines delimiters
      = Some (flines, hunks').
Proof.
  intros Hshort Hfit. induction aliases as [|[flagKey flagAliases] rest IH];
    intros hunks.
  - exists hunks. reflexivity.
  - cbn [toHunksFrom].
    destruct (aggregate_returns_on_short_lines flines projKey flagKey
                flagAliases ctxLines delimiters Hshort Hfit) as (hs & ->).
    apply IH.
Qed.

Lemma toHunks_short (f : file) (projKey : string)
    (aliases : list (string * list string)) (ctxLines : Z)
    (delimiters : string) :
  shortLines (lines f) ->
  Z.of_nat (List.length (lines f)) + Z.max 0 ctxLines < GoInt.max_int ->
  exists reference : option ReferenceHunksRep,
    toHunks f projKey aliases ctxLines delimiters = Some (lines f, reference).
Proof.
  intros Hshort Hfit. unfold toHunks.
  destruct (toHunksFrom_short (lines f) projKey ctxLines delimiters Hshort
              Hfit aliases []) as (hunks & ->).
  destruct (Z.of_nat (List.length hunks) =? 0); eexists; reflexivity.
Qed.

(** ** Deduplication *)

Lemma Dedupe_In (s : list string) (x : string) :
  In x (Dedupe s) <-> In x s.
Proof.
  induction s as [|y s IH]; cbn [Dedupe]; [reflexivity|].
  cbn [In]. rewrite filter_In, IH. unfold string_eqb. split.
  - intros [H|[H _]]; auto.
  - intros [H|H]; [left; exact H|].
    destruct (String.eqb_spec y x) as [E|E]; [left; exact E|right].
    split; [exact H|reflexivity].
Qed.

Lemma Dedupe_NoDup (s : list string) : NoDup (Dedupe s).
Proof.
  induction s as [|y s IH]; cbn [Dedupe]; constructor.
  - rewrite filter_In. unfold string_eqb. intros [_ H].
    rewrite String.eqb_refl in H. discriminate.
  - apply NoDup_filter. exact IH.
Qed.

(** ** Merging and order of the hunks of one flag *)

(** C1: with [0 <= ctxLines], when the new excerpt [b] (lines [lb]) starts
    at or before the line that follows the last line of the previous hunk
    [a] (lines [la]), so that the two overlap or are exactly adjacent, the
    aggregator replaces [a] by a single hunk that keeps [a]'s starting line
    and whose text is [la] followed by the lines of [lb] that [a] does not
    already cover; when [a] covers all of [lb] the list is left as it was.
    For a whole file whose lines need no truncation, the hunks of a flag are
    the maximal ranges of the union of the excerpt windows, each with the
    lines of its range once.  Matches at lines 5 and 7 with one context line
    give exactly one hunk made of lines 4 to 8. *)
Theorem aggregate_merges_touching_excerpts :
  (forall (hs : list HunkRep) (a b : HunkRep) (la lb : list string)
          (ctxLines : Z),
      0 <= ctxLines ->
      la <> [] -> lb <> [] ->
      forallb oneLine la = true -> forallb oneLine lb = true ->
      Lines a = Join la -> Lines b = Join lb ->
      StartingLineNumber a <= StartingLineNumber b ->
      StartingLineNumber b <= StartingLineNumber a + Z.of_nat (List.length la) ->
      let covered :=
        Z.to_nat (StartingLineNumber a + Z.of_nat (List.length la)
                  - StartingLineNumber b) in
      ((covered < List.length lb)%nat ->
       addMatch (hs ++ [a]) b ctxLines =
       hs ++ [mkHunkRep (ProjKey a) (FlagKey a) (StartingLineNumber a)
                (Join (la ++ skipn covered lb))
                (Dedupe (Aliases a ++ Aliases b))]) /\
      ((List.length lb <= covered)%nat ->
       addMatch (hs ++ [a]) b ctxLines = hs ++ [a]))
  /\
  (forall (flines : list string) (projKey flagKey : string)
          (flagAliases : list string) (c : nat) (delimiters : string),
      shortLines flines ->
      forallb oneLine flines = true ->
      Z.of_nat (List.length flines) + Z.of_nat c < GoInt.max_int ->
      exists hs : list HunkRep,
        aggregateHunksForFlag flines projKey flagKey flagAliases (Z.of_nat c)
          delimiters = Some (flines, hs) /\
        map located hs =
        map (excerptOf flines)
          (coverFrom (List.length flines) c 0 flines None
             flagKey flagAliases delimiters))
  /\ aggregateHunksForFlag tenLines "proj" "flag" [] 1 "'" =
     Some (tenLines,
           [mkHunkRep "proj" "flag" 4
              (Join ["l4"; "l5 'flag'"; "l6"; "l7 'flag'"; "l8"]) []]).
Proof.
  split; [|split; [exact aggregate_is_cover|reflexivity]].
  intros hs a b la lb ctxLines Hc Hla Hlb Ola Olb Ea Eb Hab Hadj covered.
  pose proof (addMatch_merge_lines hs a b la lb ctxLines
                Hc Hla Hlb Ola Olb Ea Eb Hab Hadj) as H.
  cbv zeta in H. fold covered in H. split; intros Hcov; rewrite H.
  - destruct (Nat.leb_spec (List.length lb) covered); [lia|reflexivity].
  - destruct (Nat.leb_spec (List.length lb) covered); [reflexivity|lia].
Qed.

Lemma shortLines_tenLines : shortLines tenLines.
Proof. repeat constructor; vm_compute; discriminate. Defined.

Lemma aggregate_merges_touching_excerpts_witness :
  (let a := mkHunkRep "proj" "flag" 4 (Join ["l4"; "l5 'flag'"; "l6"]) [] in
   let b := mkHunkRep "proj" "flag" 6 (Join ["l6"; "l7 'flag'"; "l8"]) [] in
   addMatch ([] ++ [a]) b 1 =
   [] ++ [mkHunkRep "proj" "flag" 4
            (Join ["l4"; "l5 'flag'"; "l6"; "l7 'flag'"; "l8"]) []])
  /\
  (exists hs : list HunkRep,
     aggregateHunksForFlag tenLines "proj" "flag" [] 1 "'"
     = Some (tenLines, hs) /\
     map located hs = [excerptOf tenLines (3%nat, 8%nat)]).
Proof.
  split.
  - intros a b.
    apply (proj1 (proj1 aggregate_merges_touching_excerpts [] a b
             ["l4"; "l5 'flag'"; "l6"] ["l6"; "l7 'flag'"; "l8"] 1
             ltac:(lia) ltac:(discriminate) ltac:(discriminate)
             ltac:(reflexivity) ltac:(reflexivity)
             ltac:(reflexivity) ltac:(reflexivity)
             ltac:(simpl; lia) ltac:(simpl; lia))).
    simpl. lia.
  - apply (proj1 (proj2 aggregate_merges_touching_excerpts)
             tenLines "proj" "flag" [] 1%nat "'").
    + exact shortLines_tenLines.
    + reflexivity.
    + vm_compute. reflexivity.
Defined.

(** C8: [aggregateHunksForFlag] returns on every file whose lines need no
    truncation, and whenever it returns, the hunks of the flag are in
    strictly ascending order of starting line and no two of them have a line
    in common: each ends before every later one starts. *)
Theorem aggregate_hunks_ascending_and_disjoint
    (flines : list string) (projKey flagKey : string)
    (flagAliases : list string) (ctxLines : Z) (delimiters : string) :
  Z.of_nat (List.length flines) <= GoInt.max_int ->
  ctxLines <= GoInt.max_int ->
  (shortLines flines ->
   Z.of_nat (List.length flines) + Z.max 0 ctxLines < GoInt.max_int ->
   exists hs : list HunkRep,
     aggregateHunksForFlag flines projKey flagKey flagAliases ctxLines
       delimiters = Some (flines, hs))
  /\
  (forall (flines' : list string) (hs : list HunkRep),
     aggregateHunksForFlag flines projKey flagKey flagAliases ctxLines
       delimiters = Some (flines', hs) ->
     ForallOrdPairs
       (fun h1 h2 => StartingLineNumber h1 < StartingLineNumber h2) hs /\
     ForallOrdPairs
       (fun h1 h2 =>
          StartingLineNumber h1 + NumLines h1 <= StartingLineNumber h2) hs).
Proof.
  intros Hlen Hc. split; [apply aggregate_returns_on_short_lines|].
  intros flines' hs E. unfold aggregateHunksForFlag in E.
  apply (aggregateFrom_hunksInv _ _ _ _ _ Hc) in E.
  - destruct E as (H & _ & _). split; [|exact H].
    eapply ForallOrdPairs_impl; [|exact H]. apply before_startsBefore.
  - simpl Z.of_nat. lia.
  - split; [constructor|]. split; [constructor|]. intros _. constructor.
Qed.

Lemma shortLines_twoHunkLines : shortLines twoHunkLines.
Proof. repeat constructor; vm_compute; discriminate. Defined.

Lemma aggregate_hunks_ascending_and_disjoint_witness :
  let hs := [mkHunkRep "proj" "flag" 1 (Join ["l1"; "l2 'flag'"; "l3"]) [];
             mkHunkRep "proj" "flag" 8 (Join ["l8"; "l9 'flag'"; "l10"]) []] in
  (exists hs' : list HunkRep,
     aggregateHunksForFlag twoHunkLines "proj" "flag" [] 1 "'"
     = Some (twoHunkLines, hs')) /\
  ForallOrdPairs
    (fun h1 h2 => StartingLineNumber h1 < StartingLineNumber h2) hs /\
  ForallOrdPairs
    (fun h1 h2 => StartingLineNumber h1 + NumLines h1 <= StartingLineNumber h2)
    hs.
Proof.
  intros hs.
  destruct (aggregate_hunks_ascending_and_disjoint twoHunkLines "proj" "flag"
              [] 1 "'") as [Hret Hinv].
  - vm_compute. discriminate.
  - vm_compute. discriminate.
  - split.
    + apply Hret; [exact shortLines_twoHunkLines|vm_compute; reflexivity].
    + apply (Hinv twoHunkLines hs). reflexivity.
Defined.

(** ** Where the code departs from its description *)

(** C2: [accentedLine] is valid UTF-8 (decoding and encoding it gives it
    back), has more bytes than [maxLineCharCount] and fewer characters.
    [truncateLine] panics on it, slicing 500 runes out of 306, and so do
    [linesIfMatch], [aggregateHunksForFlag] and [toHunks] on a file that
    holds this line: no result is returned. *)
Theorem toHunks_panics_on_short_multibyte_line :
  Utf8.of_runes (Utf8.runes accentedLine) = accentedLine /\
  len accentedLine = 606 /\
  Z.of_nat (List.length (Utf8.runes accentedLine)) = 306 /\
  truncateLine accentedLine = None /\
  linesIfMatch [accentedLine] "proj" "flag" accentedLine [] 0 0 "'" = None /\
  aggregateHunksForFlag [accentedLine] "proj" "flag" [] 0 "'" = None /\
  toHunks (mkFile "main.go" [accentedLine]) "proj" [("flag", [])] 0 "'" = None.
Proof. repeat split; vm_compute; reflexivity. Qed.

(** C5: [accented] has 600 bytes and 300 characters.  [truncateLine]
    neither returns it unchanged nor returns a truncated line: it panics. *)
Theorem truncateLine_panics_below_500_characters :
  len accented = 600 /\
  Z.of_nat (List.length (Utf8.runes accented)) = 300 /\
  truncateLine accented = None.
Proof. repeat split; vm_compute; reflexivity. Qed.

(** C3: both aliases occur in the line, and the hunk lists only the last
    one.  The assignment in the loop over the matched aliases replaces the
    alias list instead of growing it. *)
Theorem linesIfMatch_keeps_only_last_alias :
  Contains "alpha beta" "alpha" = true /\
  Contains "alpha beta" "beta" = true /\
  linesIfMatch ["alpha beta"] "proj" "flag" "alpha beta" ["alpha"; "beta"]
    0 0 "'"
  = Some (["alpha beta"],
          Some (mkHunkRep "proj" "flag" 1 "alpha beta" ["beta"])) /\
  aggregateHunksForFlag ["alpha beta"] "proj" "flag" ["alpha"; "beta"] 0 "'"
  = Some (["alpha beta"], [mkHunkRep "proj" "flag" 1 "alpha beta" ["beta"]]).
Proof. repeat split; reflexivity. Qed.

(** C9: processing overwrites the lines of the file.  After [toHunks] the
    only line of the file is its truncated form, not the line that was
    read; and since every flag is searched in the same lines, what is found
    for a flag depends on which flags were searched before it. *)
Theorem toHunks_overwrites_the_lines :
  (exists reference,
     toHunks (mkFile "main.go" [flagBeyondLimit]) "proj" [("flag", [])] 0 "'"
     = Some ([(replicate 500 "a" ++ ellipsis)%string], reference)) /\
  (replicate 500 "a" ++ ellipsis)%string <> flagBeyondLimit /\
  reportedFlags
    (toHunks (mkFile "main.go" [twoFlagLine]) "proj"
       [("one", []); ("two", [])] 0 "'") = ["one"] /\
  reportedFlags
    (toHunks (mkFile "main.go" [twoFlagLine]) "proj"
       [("two", []); ("one", [])] 0 "'") = ["two"; "one"].
Proof.
  split; [eexists; vm_compute; reflexivity|].
  split; [|split; vm_compute; reflexivity].
  intros E. apply (f_equal String.length) in E. vm_compute in E. discriminate.
Qed.

(** * Further properties *)

(** ** UTF-8 decoding and encoding *)

Lemma byteZ_range (c : ascii) : 0 <= Utf8.byteZ c < 256.
Proof.
  unfold Utf8.byteZ. pose proof (N_ascii_bounded c). lia.
Qed.

Lemma byteZ_zbyte (z : Z) : 0 <= z < 256 -> Utf8.byteZ (Utf8.zbyte z) = z.
Proof.
  intros H. unfold Utf8.byteZ, Utf8.zbyte.
  rewrite N_ascii_embedding by lia. lia.
Qed.

Lemma zbyte_byteZ (c : ascii) : Utf8.zbyte (Utf8.byteZ c) = c.
Proof.
  unfold Utf8.byteZ, Utf8.zbyte. rewrite N2Z.id. apply ascii_N_embedding.
Qed.

Lemma runes_1 (c0 : ascii) (t : string) :
  Utf8.byteZ c0 < 128 ->
  Utf8.runes (String c0 t) = Utf8.byteZ c0 :: Utf8.runes t.
Proof.
  intros H. cbn [Utf8.runes].
  destruct (Z.ltb_spec (Utf8.byteZ c0) 128); [reflexivity|lia].
Qed.

Lemma runes_2 (c0 c1 : ascii) (t : string) :
  128 <= Utf8.byteZ c0 < 224 ->
  Utf8.accept (Utf8.byteZ c0) (Utf8.byteZ c1) = true ->
  Utf8.runes (String c0 (String c1 t))
  = ((Utf8.byteZ c0 - 192) * 64 + (Utf8.byteZ c1 - 128)) :: Utf8.runes t.
Proof.
  intros H Ha. cbn [Utf8.runes]. rewrite Ha. cbn [negb].
  destruct (Z.ltb_spec (Utf8.byteZ c0) 128); [lia|].
  destruct (Z.ltb_spec (Utf8.byteZ c0) 224); [reflexivity|lia].
Qed.

Lemma runes_3 (c0 c1 c2 : ascii) (t : string) :
  224 <= Utf8.byteZ c0 < 240 ->
  Utf8.accept (Utf8.byteZ c0) (Utf8.byteZ c1) = true ->
  Utf8.cont (Utf8.byteZ c2) = true ->
  Utf8.runes (String c0 (String c1 (String c2 t)))
  = ((Utf8.byteZ c0 - 224) * 4096 + (Utf8.byteZ c1 - 128) * 64
     + (Utf8.byteZ c2 - 128)) :: Utf8.runes t.
Proof.
  intros H Ha Hc. cbn [Utf8.runes]. rewrite Ha, Hc. cbn [negb].
  destruct (Z.ltb_spec (Utf8.byteZ c0) 128); [lia|].
  destruct (Z.ltb_spec (Utf8.byteZ c0) 224); [lia|].
  destruct (Z.ltb_spec (Utf8.byteZ c0) 240); [reflexivity|lia].
Qed.

Lemma runes_4 (c0 c1 c2 c3 : ascii) (t : string) :
  240 <= Utf8.byteZ c0 ->
  Utf8.accept (Utf8.byteZ c0) (Utf8.byteZ c1) = true ->
  Utf8.cont (Utf8.byteZ c2) = true ->
  Utf8.cont (Utf8.byteZ c3) = true ->
  Utf8.runes (String c0 (String c1 (String c2 (String c3 t))))
  = ((Utf8.byteZ c0 - 240) * 262144 + (Utf8.byteZ c1 - 128) * 4096
     + (Utf8.byteZ c2 - 128) * 64 + (Utf8.byteZ c3 - 128)) :: Utf8.runes t.
Proof.
  intros H Ha Hc2 Hc3. cbn [Utf8.runes]. rewrite Ha, Hc2, Hc3. cbn [negb].
  destruct (Z.ltb_spec (Utf8.byteZ c0) 128); [lia|].
  destruct (Z.ltb_spec (Utf8.byteZ c0) 224); [lia|].
  destruct (Z.ltb_spec (Utf8.byteZ c0) 240); [lia|reflexivity].
Qed.

(** Decide the comparisons of a goal about bytes. *)
Ltac byte_tests :=
  unfold Utf8.accept, Utf8.cont, Utf8.between;
  repeat match goal with
         | |- context [?a <? ?b] =>
             destruct (Z.ltb_spec a b); try (exfalso; lia)
         | |- context [?a <=? ?b] =>
             destruct (Z.leb_spec a b); try (exfalso; lia)
         | |- context [?a =? ?b] =>
             destruct (Z.eqb_spec a b); try (exfalso; lia)
         end;
  cbn [andb orb negb]; reflexivity.

Lemma runes_encode (r : Z) (s : string) :
  scalar r -> Utf8.runes (Utf8.encode r ++ s) = r :: Utf8.runes s.
Proof.
  unfold scalar, Utf8.MaxRune. intros [Hr Hs].
  unfold Utf8.encode, Utf8.between, Utf8.MaxRune, Utf8.RuneError.
  destruct (Z.ltb_spec r 0); [lia|].
  destruct (Z.ltb_spec 1114111 r); [lia|].
  assert (E : (55296 <=? r) && (r <=? 57343) = false).
  { destruct (Z.leb_spec 55296 r); destruct (Z.leb_spec r 57343);
      simpl; try reflexivity; lia. }
  rewrite E. cbn [orb].
  destruct (Z.leb_spec r 127); [|destruct (Z.leb_spec r 2047);
                                  [|destruct (Z.leb_spec r 65535)]];
    cbn [Utf8.str fold_right append].
  - rewrite runes_1; rewrite byteZ_zbyte by lia; [reflexivity|lia].
  - assert (D : r = 64 * (r / 64) + r mod 64 /\ 0 <= r mod 64 < 64)
      by (Z.to_euclidean_division_equations; lia).
    remember (r / 64) as a eqn:Ea. remember (r mod 64) as b eqn:Eb.
    clear Ea Eb.
    rewrite runes_2; rewrite ?byteZ_zbyte by lia;
      [f_equal; lia|lia|byte_tests].
  - assert (D : r = 4096 * (r / 4096) + 64 * ((r / 64) mod 64) + r mod 64 /\
                0 <= (r / 64) mod 64 < 64 /\ 0 <= r mod 64 < 64)
      by (Z.to_euclidean_division_equations; lia).
    remember (r / 4096) as a eqn:Ea. remember ((r / 64) mod 64) as b eqn:Eb.
    remember (r mod 64) as c eqn:Ec. clear Ea Eb Ec.
    rewrite runes_3; rewrite ?byteZ_zbyte by lia;
      [f_equal; lia|lia|byte_tests|byte_tests].
  - assert (D : r = 262144 * (r / 262144) + 4096 * ((r / 4096) mod 64)
                    + 64 * ((r / 64) mod 64) + r mod 64 /\
                0 <= (r / 4096) mod 64 < 64 /\
                0 <= (r / 64) mod 64 < 64 /\ 0 <= r mod 64 < 64)
      by (Z.to_euclidean_division_equations; lia).
    remember (r / 262144) as a eqn:Ea.
    remember ((r / 4096) mod 64) as b eqn:Eb.
    remember ((r / 64) mod 64) as c eqn:Ec.
    remember (r mod 64) as d eqn:Ed. clear Ea Eb Ec Ed.
    rewrite runes_4; rewrite ?byteZ_zbyte by lia;
      [f_equal; lia|lia|byte_tests|byte_tests|byte_tests].
Qed.

Lemma runes_head (c0 : ascii) (t0 : string) :
  exists r rest,
    headRune c0 t0 r rest /\
    Utf8.runes (String c0 t0) = r :: Utf8.runes rest.
Proof.
  destruct (Z.ltb_spec (Utf8.byteZ c0) 128) as [H0|H0].
  { eexists _, _. split; [apply head_ascii; exact H0|apply runes_1; exact H0]. }
  assert (Herr : forall E : Utf8.runes (String c0 t0)
                            = Utf8.RuneError :: Utf8.runes t0,
             exists r rest,
               headRune c0 t0 r rest /\
               Utf8.runes (String c0 t0) = r :: Utf8.runes rest).
  { intros E. eexists _, _. split; [apply head_error; exact H0|exact E]. }
  assert (U : Utf8.runes (String c0 t0) =
              match t0 with
              | EmptyString => [Utf8.RuneError]
              | String c1 t1 =>
                if negb (Utf8.accept (Utf8.byteZ c0) (Utf8.byteZ c1))
                then Utf8.RuneError :: Utf8.runes t0 else
                if Utf8.byteZ c0 <? 224
                then ((Utf8.byteZ c0 - 192) * 64 + (Utf8.byteZ c1 - 128))
                     :: Utf8.runes t1 else
                match t1 with
                | EmptyString => Utf8.RuneError :: Utf8.runes t0
                | String c2 t2 =>
                  if negb (Utf8.cont (Utf8.byteZ c2))
                  then Utf8.RuneError :: Utf8.runes t0 else
                  if Utf8.byteZ c0 <? 240
                  then ((Utf8.byteZ c0 - 224) * 4096
                        + (Utf8.byteZ c1 - 128) * 64
                        + (Utf8.byteZ c2 - 128)) :: Utf8.runes t2
                  else
                  match t2 with
                  | EmptyString => Utf8.RuneError :: Utf8.runes t0
                  | String c3 t3 =>
                    if negb (Utf8.cont (Utf8.byteZ c3))
                    then Utf8.RuneError :: Utf8.runes t0 else
                    ((Utf8.byteZ c0 - 240) * 262144
                     + (Utf8.byteZ c1 - 128) * 4096
                     + (Utf8.byteZ c2 - 128) * 64
                     + (Utf8.byteZ c3 - 128)) :: Utf8.runes t3
                  end
                end
              end).
  { change (Utf8.runes (String c0 t0)) with
      (if Utf8.byteZ c0 <? 128 then Utf8.byteZ c0 :: Utf8.runes t0 else
       match t0 with
              | EmptyString => [Utf8.RuneError]
              | String c1 t1 =>
                if negb (Utf8.accept (Utf8.byteZ c0) (Utf8.byteZ c1))
                then Utf8.RuneError :: Utf8.runes t0 else
                if Utf8.byteZ c0 <? 224
                then ((Utf8.byteZ c0 - 192) * 64 + (Utf8.byteZ c1 - 128))
                     :: Utf8.runes t1 else
                match t1 with
                | EmptyString => Utf8.RuneError :: Utf8.runes t0
                | String c2 t2 =>
                  if negb (Utf8.cont (Utf8.byteZ c2))
                  then Utf8.RuneError :: Utf8.runes t0 else
                  if Utf8.byteZ c0 <? 240
                  then ((Utf8.byteZ c0 - 224) * 4096
                        + (Utf8.byteZ c1 - 128) * 64
                        + (Utf8.byteZ c2 - 128)) :: Utf8.runes t2
                  else
                  match t2 with
                  | EmptyString => Utf8.RuneError :: Utf8.runes t0
                  | String c3 t3 =>
                    if negb (Utf8.cont (Utf8.byteZ c3))
                    then Utf8.RuneError :: Utf8.runes t0 else
                    ((Utf8.byteZ c0 - 240) * 262144
                     + (Utf8.byteZ c1 - 128) * 4096
                     + (Utf8.byteZ c2 - 128) * 64
                     + (Utf8.byteZ c3 - 128)) :: Utf8.runes t3
                  end
                end
              end).
    destruct (Z.ltb_spec (Utf8.byteZ c0) 128); [lia|reflexivity]. }
  destruct t0 as [|c1 t1]; [apply Herr; exact U|].
  destruct (Utf8.accept (Utf8.byteZ c0) (Utf8.byteZ c1)) eqn:Ea;
    cbn [negb] in U; [|apply Herr; exact U].
  destruct (Z.ltb_spec (Utf8.byteZ c0) 224) as [H1|H1].
  { eexists _, _. split; [eapply head_2; [reflexivity|lia|exact Ea]|exact U]. }
  destruct t1 as [|c2 t2]; [apply Herr; exact U|].
  destruct (Utf8.cont (Utf8.byteZ c2)) eqn:E2;
    cbn [negb] in U; [|apply Herr; exact U].
  destruct (Z.ltb_spec (Utf8.byteZ c0) 240) as [H2|H2].
  { eexists _, _.
    split; [eapply head_3; [reflexivity|lia|exact Ea|exact E2]|exact U]. }
  destruct t2 as [|c3 t3]; [apply Herr; exact U|].
  destruct (Utf8.cont (Utf8.byteZ c3)) eqn:E3;
    cbn [negb] in U; [|apply Herr; exact U].
  eexists _, _.
  split; [eapply head_4; [reflexivity|lia|exact Ea|exact E2|exact E3]|exact U].
Qed.

Lemma headRune_length (c0 : ascii) (t0 : string) (r : Z) (rest : string) :
  headRune c0 t0 r rest -> (String.length rest <= String.length t0)%nat.
Proof. intros H. destruct H; subst; cbn [String.length]; lia. Qed.

(** Induction along the decoding of a string. *)
Lemma runes_ind (P : string -> list Z -> Prop) :
  P EmptyString [] ->
  (forall c0 t0 r rest,
      headRune c0 t0 r rest -> P rest (Utf8.runes rest) ->
      P (String c0 t0) (r :: Utf8.runes rest)) ->
  forall s, P s (Utf8.runes s).
Proof.
  intros Hnil Hstep s.
  remember (String.length s) as n eqn:En.
  revert s En. induction n as [n IH] using (well_founded_induction lt_wf).
  intros [|c0 t0] En; [exact Hnil|].
  destruct (runes_head c0 t0) as (r & rest & Hh & ->).
  apply Hstep; [exact Hh|].
  apply (IH (String.length rest)); [|reflexivity].
  apply headRune_length in Hh. subst n. cbn [String.length]. lia.
Qed.

Ltac accept_cases H :=
  unfold Utf8.accept, Utf8.cont, Utf8.between in H;
  repeat match type of H with
         | context [?a <? ?b] =>
             destruct (Z.ltb_spec a b); try (exfalso; lia)
         | context [?a <=? ?b] =>
             destruct (Z.leb_spec a b); try (exfalso; lia)
         | context [?a =? ?b] =>
             destruct (Z.eqb_spec a b); try (exfalso; lia)
         end;
  cbn [andb orb negb] in H; try discriminate H.

Lemma headRune_scalar (c0 : ascii) (t0 : string) (r : Z) (rest : string) :
  headRune c0 t0 r rest -> scalar r.
Proof.
  unfold scalar, Utf8.MaxRune.
  intros H. pose proof (byteZ_range c0) as R0.
  destruct H as [H|H|c1 t1 E H Ha|c1 c2 t2 E H Ha H2
                 |c1 c2 c3 t3 E H Ha H2 H3].
  - lia.
  - unfold Utf8.RuneError. lia.
  - pose proof (byteZ_range c1). accept_cases Ha; lia.
  - pose proof (byteZ_range c1). pose proof (byteZ_range c2).
    accept_cases H2. accept_cases Ha; lia.
  - pose proof (byteZ_range c1). pose proof (byteZ_range c2).
    pose proof (byteZ_range c3).
    accept_cases H2. accept_cases H3. accept_cases Ha; lia.
Qed.

Lemma runes_scalar (s : string) : Forall scalar (Utf8.runes s).
Proof.
  apply (runes_ind (fun _ rs => Forall scalar rs)); [constructor|].
  intros c0 t0 r rest Hh IH. constructor; [|exact IH].
  eapply headRune_scalar; exact Hh.
Qed.

Lemma append_assoc (a b c : string) :
  ((a ++ b) ++ c)%string = (a ++ (b ++ c))%string.
Proof. induction a as [|x a IH]; simpl; [reflexivity|]. rewrite IH. reflexivity. Qed.

Lemma runes_of_runes (rs : list Z) (s : string) :
  Forall scalar rs ->
  Utf8.runes (Utf8.of_runes rs ++ s) = rs ++ Utf8.runes s.
Proof.
  induction 1 as [|r rs Hr _ IH]; [reflexivity|].
  cbn [Utf8.of_runes app]. rewrite append_assoc, runes_encode by exact Hr.
  rewrite IH. reflexivity.
Qed.

Lemma len_app (a b : string) : len (a ++ b) = len a + len b.
Proof.
  unfold len. induction a as [|x a IH]; cbn [append String.length]; lia.
Qed.

Lemma len_encode (r : Z) : 1 <= len (Utf8.encode r) <= 4.
Proof.
  unfold Utf8.encode.
  destruct (_ || _); repeat destruct (_ <=? _); vm_compute; split; discriminate.
Qed.

Lemma len_of_runes (rs : list Z) :
  Z.of_nat (List.length rs) <= len (Utf8.of_runes rs)
  <= 4 * Z.of_nat (List.length rs).
Proof.
  induction rs as [|r rs IH]; [vm_compute; split; discriminate|].
  cbn [Utf8.of_runes List.length]. rewrite len_app.
  pose proof (len_encode r). lia.
Qed.

Lemma ellipsis_encode : ellipsis = Utf8.encode 8230.
Proof. reflexivity. Qed.

Lemma scalar_ellipsis : scalar 8230.
Proof. unfold scalar, Utf8.MaxRune. lia. Qed.

Lemma append_nil_r (a : string) : (a ++ "")%string = a.
Proof. induction a as [|x a IH]; simpl; [reflexivity|]. rewrite IH. reflexivity. Qed.

(** ** Truncated lines *)

(** The runes of a truncated line: the first 500 runes and the marker. *)
Lemma runes_truncated (line : string) :
  Utf8.runes (Utf8.of_runes (firstn 500 (Utf8.runes line)) ++ ellipsis)
  = firstn 500 (Utf8.runes line) ++ [8230].
Proof.
  rewrite runes_of_runes.
  - rewrite ellipsis_encode.
    rewrite <- (append_nil_r (Utf8.encode 8230)).
    rewrite runes_encode by exact scalar_ellipsis. reflexivity.
  - assert (H : forall n (l : list Z), Forall scalar l -> Forall scalar (firstn n l)).
    { intros n l Hl. revert n. induction Hl; intros [|n]; simpl; constructor; auto. }
    apply H, runes_scalar.
Qed.

Lemma truncateLine_fixed (line text : string) :
  truncateLine line = Some text -> truncateLine text = Some text.
Proof.
  destruct (Z.leb_spec (len line) maxLineCharCount) as [Hs|Hl].
  - rewrite truncateLine_within by exact Hs.
    intros E. injection E as <-. apply truncateLine_within. exact Hs.
  - destruct (Z.leb_spec maxLineCharCount
                (Z.of_nat (List.length (Utf8.runes line)))) as [Hr|Hr].
    + rewrite truncateLine_beyond by assumption.
      pose proof (runes_truncated line) as Rt.
      assert (L : List.length (firstn 500 (Utf8.runes line)) = 500%nat)
        by (apply firstn_length_le; unfold maxLineCharCount in Hr; lia).
      pose proof (len_of_runes (firstn 500 (Utf8.runes line))) as B.
      rewrite L in B.
      remember (firstn 500 (Utf8.runes line)) as kept eqn:Ek.
      intros E. injection E as <-.
      rewrite truncateLine_beyond.
      * rewrite Rt. rewrite <- L at 1.
        rewrite <- (Nat.add_0_r (List.length kept)), firstn_app_2.
        cbn [firstn]. rewrite app_nil_r. reflexivity.
      * rewrite len_app. change (len ellipsis) with 3.
        unfold maxLineCharCount. lia.
      * rewrite Rt, length_app, L. cbn [List.length].
        unfold maxLineCharCount. lia.
    + unfold truncateLine.
      destruct (Z.leb_spec (len line) maxLineCharCount); [lia|].
      destruct (Z.leb_spec maxLineCharCount
                  (Z.of_nat (List.length (Utf8.runes line)))); [lia|].
      discriminate.
Qed.



Lemma runes_nil (s : string) : Utf8.runes s = [] <-> s = EmptyString.
Proof.
  split; [|intros ->; reflexivity].
  destruct s as [|c0 t0]; [reflexivity|].
  destruct (runes_head c0 t0) as (r & rest & _ & ->). discriminate.
Qed.


Lemma eqb_newline (c : ascii) :
  Ascii.eqb c newline = (Utf8.byteZ c =? 10).
Proof.
  destruct (Ascii.eqb_spec c newline) as [->|Hn].
  - reflexivity.
  - destruct (Z.eqb_spec (Utf8.byteZ c) 10) as [E|E]; [|reflexivity].
    exfalso. apply Hn. rewrite <- (zbyte_byteZ c), E. reflexivity.
Qed.

Lemma oneLine_high (c : ascii) (t : string) :
  128 <= Utf8.byteZ c -> oneLine (String c t) = oneLine t.
Proof.
  intros H. cbn [oneLine]. rewrite eqb_newline.
  destruct (Z.eqb_spec (Utf8.byteZ c) 10); [lia|reflexivity].
Qed.

Lemma cont_high (b : Z) : Utf8.cont b = true -> 128 <= b.
Proof. intros H. accept_cases H; lia. Qed.

Lemma accept_lead (b0 b1 : Z) :
  Utf8.accept b0 b1 = true ->
  194 <= b0 <= 244 /\ 128 <= b1 /\ (b0 = 224 -> 160 <= b1) /\
  (b0 = 240 -> 144 <= b1).
Proof. intros H. accept_cases H; lia. Qed.

Lemma headRune_newline (c0 : ascii) (t0 : string) (r : Z) (rest : string) :
  headRune c0 t0 r rest ->
  oneLine (String c0 t0) = negb (r =? 10) && oneLine rest.
Proof.
  intros H.
  destruct H as [H|H|c1 t1 E H Ha|c1 c2 t2 E H Ha H2
                 |c1 c2 c3 t3 E H Ha H2 H3].
  - cbn [oneLine]. rewrite eqb_newline. reflexivity.
  - rewrite oneLine_high by exact H. reflexivity.
  - subst t0. pose proof (accept_lead _ _ Ha). pose proof (byteZ_range c1).
    rewrite !oneLine_high by lia.
    destruct (Z.eqb_spec ((Utf8.byteZ c0 - 192) * 64 + (Utf8.byteZ c1 - 128))
                10); [lia|reflexivity].
  - subst t0. pose proof (accept_lead _ _ Ha). pose proof (cont_high _ H2).
    pose proof (byteZ_range c1). pose proof (byteZ_range c2).
    rewrite !oneLine_high by lia.
    match goal with
    | |- _ = negb (?v =? 10) && _ =>
        destruct (Z.eqb_spec v 10); [lia|reflexivity]
    end.
  - subst t0. pose proof (accept_lead _ _ Ha). pose proof (cont_high _ H2).
    pose proof (cont_high _ H3).
    pose proof (byteZ_range c1). pose proof (byteZ_range c2).
    pose proof (byteZ_range c3).
    rewrite !oneLine_high by lia.
    match goal with
    | |- _ = negb (?v =? 10) && _ =>
        destruct (Z.eqb_spec v 10); [lia|reflexivity]
    end.
Qed.

(** A string has a newline character exactly when it has a newline byte. *)
Lemma runes_oneLine (s : string) :
  forallb (fun r => negb (r =? 10)) (Utf8.runes s) = oneLine s.
Proof.
  apply (runes_ind (fun s rs =>
           forallb (fun r => negb (r =? 10)) rs = oneLine s));
    [reflexivity|].
  intros c0 t0 r rest Hh IH. cbn [forallb].
  rewrite IH. symmetry. apply headRune_newline. exact Hh.
Qed.

(** ** Frame *)

Lemma rewritten_refl (l : string) : rewritten l l.
Proof. left. reflexivity. Qed.

Lemma rewritten_trans (a b c : string) :
  rewritten a b -> rewritten b c -> rewritten a c.
Proof.
  intros [->|Hab] Hbc; [exact Hbc|].
  destruct Hbc as [->|Hbc]; [right; exact Hab|].
  rewrite (truncateLine_fixed a b Hab) in Hbc. injection Hbc as <-.
  right. exact Hab.
Qed.

Lemma Forall2_rewritten_refl (ls : list string) : Forall2 rewritten ls ls.
Proof. induction ls; constructor; auto using rewritten_refl. Qed.

Lemma Forall2_rewritten_trans (l1 l2 l3 : list string) :
  Forall2 rewritten l1 l2 -> Forall2 rewritten l2 l3 ->
  Forall2 rewritten l1 l3.
Proof.
  intros H. revert l3. induction H as [|a b l1 l2 Hab _ IH]; intros l3 H23.
  - inversion H23. constructor.
  - inversion H23 as [|? c ? l3' Hbc H']; subst. constructor.
    + eapply rewritten_trans; eassumption.
    + apply IH. exact H'.
Qed.

Lemma truncateAll_rewritten (ls ts : list string) :
  truncateAll ls = Some ts -> Forall2 rewritten ls ts.
Proof.
  revert ts. induction ls as [|l ls IH]; intros ts; cbn [truncateAll].
  - intros E. injection E as <-. constructor.
  - destruct (truncateLine l) as [t|] eqn:Et; [|discriminate].
    destruct (truncateAll ls) as [ts'|]; [|discriminate].
    intros E. injection E as <-. constructor; [right; exact Et|].
    apply IH. reflexivity.
Qed.

Lemma linesIfMatch_rewritten (flines : list string)
    (projKey flagKey line : string) (aliases : list string)
    (i ctxLines : Z) (delimiters : string)
    (flines' : list string) (m : option HunkRep) :
  linesIfMatch flines projKey flagKey line aliases i ctxLines delimiters
  = Some (flines', m) ->
  Forall2 rewritten flines flines'.
Proof.
  unfold linesIfMatch.
  destruct (negb _ && _).
  { intros E. injection E as <- _. apply Forall2_rewritten_refl. }
  destruct (0 <=? ctxLines).
  - match goal with
    | |- context [if ?s <=? ?h then _ else None] =>
        destruct (Z.leb_spec s h) as [Hle|]; [|discriminate];
        set (lo := Z.to_nat s) in *; set (hi := Z.to_nat h) in *;
        assert (Hlh : (lo <= hi)%nat) by (unfold lo, hi; lia)
    end.
    destruct (truncateAll (slice flines lo hi)) as [ts|] eqn:Et;
      [|discriminate].
    intros E. injection E as <- _.
    rewrite <- (slice_rebuild flines lo hi Hlh) at 1.
    apply Forall2_app; [apply Forall2_rewritten_refl|].
    apply Forall2_app; [|apply Forall2_rewritten_refl].
    apply truncateAll_rewritten. exact Et.
  - intros E. injection E as <- _. apply Forall2_rewritten_refl.
Qed.

Lemma aggregateFrom_rewritten (projKey flagKey : string)
    (flagAliases : list string) (ctxLines : Z) (delimiters : string) :
  forall (todo i : nat) (flines : list string) (hs : list HunkRep)
         (flines' : list string) (hs' : list HunkRep),
    aggregateFrom todo i flines hs projKey flagKey flagAliases ctxLines
      delimiters = Some (flines', hs') ->
    Forall2 rewritten flines flines'.
Proof.
  induction todo as [|todo IH]; intros i flines hs flines' hs'.
  - intros E. injection E as <- _. apply Forall2_rewritten_refl.
  - cbn [aggregateFrom].
    destruct (linesIfMatch flines projKey flagKey (nth i flines EmptyString)
                flagAliases (Z.of_nat i) ctxLines delimiters)
      as [[flines1 m]|] eqn:El; [|discriminate].
    apply linesIfMatch_rewritten in El.
    destruct m as [b|]; intros E; apply IH in E;
      eapply Forall2_rewritten_trans; eassumption.
Qed.



(** ** Labels and positions of the hunks *)

Lemma mergeHunks_labelled (projKey flagKey : string) (n : Z)
    (a b : HunkRep) (ctxLines : Z) :
  labelled projKey flagKey n a -> labelled projKey flagKey n b ->
  Forall (labelled projKey flagKey n) (mergeHunks a b ctxLines).
Proof.
  intros Ha Hb. unfold mergeHunks.
  destruct (StartingLineNumber b <? StartingLineNumber a); cbv beta iota zeta;
    repeat match goal with
           | |- context [if ?c then _ else _] => destruct c
           end;
    repeat constructor; try assumption;
    cbn [ProjKey FlagKey StartingLineNumber];
    solve [apply Ha | apply Hb].
Qed.

Lemma addMatch_labelled (projKey flagKey : string) (n : Z)
    (hs : list HunkRep) (b : HunkRep) (ctxLines : Z) :
  Forall (labelled projKey flagKey n) hs -> labelled projKey flagKey n b ->
  Forall (labelled projKey flagKey n) (addMatch hs b ctxLines).
Proof.
  intros Hhs Hb.
  destruct (exists_last_or_nil hs) as [->|(hs' & a & ->)].
  - rewrite addMatch_nil. constructor; [exact Hb|constructor].
  - rewrite addMatch_last. apply Forall_app in Hhs. destruct Hhs as [H1 H2].
    inversion H2 as [|? ? Ha _]; subst.
    destruct (0 <=? Overlap a b).
    + apply Forall_app. split; [exact H1|].
      apply mergeHunks_labelled; assumption.
    + apply Forall_app. split; [exact H1|].
      constructor; [exact Ha|]. constructor; [exact Hb|constructor].
Qed.

Lemma excerptStart_range (i ctxLines : Z) :
  0 <= i -> 1 <= excerptStart i ctxLines <= i + 1.
Proof.
  intros H. unfold excerptStart. destruct (Z.leb_spec 0 ctxLines); lia.
Qed.

Lemma aggregateFrom_labelled (projKey flagKey : string)
    (flagAliases : list string) (ctxLines : Z) (delimiters : string) (n : Z) :
  ctxLines <= GoInt.max_int -> n <= GoInt.max_int ->
  forall (todo i : nat) (flines : list string) (hs : list HunkRep)
         (flines' : list string) (hs' : list HunkRep),
    Z.of_nat i + Z.of_nat todo <= n ->
    Forall (labelled projKey flagKey n) hs ->
    aggregateFrom todo i flines hs projKey flagKey flagAliases ctxLines
      delimiters = Some (flines', hs') ->
    Forall (labelled projKey flagKey n) hs'.
Proof.
  intros Hc Hn. induction todo as [|todo IH];
    intros i flines hs flines' hs' Hi Hhs.
  - intros E. injection E as _ <-. exact Hhs.
  - cbn [aggregateFrom].
    destruct (linesIfMatch flines projKey flagKey (nth i flines EmptyString)
                flagAliases (Z.of_nat i) ctxLines delimiters)
      as [[flines1 [b|]]|] eqn:El; [| |discriminate].
    + apply linesIfMatch_hunk in El; [|lia|exact Hc].
      destruct El as (Hs & Hp & Hf & _).
      apply IH; [lia|]. apply addMatch_labelled; [exact Hhs|].
      pose proof (excerptStart_range (Z.of_nat i) ctxLines ltac:(lia)).
      repeat split; try assumption; lia.
    + apply IH; [lia|exact Hhs].
Qed.

(** Every hunk returned for a flag carries the project key and the flag key
    of the call and starts at a line of the file. *)
Theorem aggregate_hunks_labelled (flines : list string)
    (projKey flagKey : string) (flagAliases : list string) (ctxLines : Z)
    (delimiters : string) (flines' : list string) (hs : list HunkRep) :
  Z.of_nat (List.length flines) <= GoInt.max_int ->
  ctxLines <= GoInt.max_int ->
  aggregateHunksForFlag flines projKey flagKey flagAliases ctxLines delimiters
  = Some (flines', hs) ->
  Forall (fun h => ProjKey h = projKey /\ FlagKey h = flagKey /\
                   1 <= StartingLineNumber h <= Z.of_nat (List.length flines))
    hs.
Proof.
  intros Hn Hc E.
  apply (aggregateFrom_labelled projKey flagKey flagAliases ctxLines
           delimiters (Z.of_nat (List.length flines)) Hc Hn) in E;
    [exact E|simpl; lia|constructor].
Qed.

(** ** Files without a line of interest *)

Lemma linesIfMatch_match (flines : list string)
    (projKey flagKey line : string) (aliases : list string)
    (i ctxLines : Z) (delimiters : string) (flines' : list string) :
  lineMatches line flagKey aliases delimiters = true ->
  linesIfMatch flines projKey flagKey line aliases i ctxLines delimiters
  <> Some (flines', None).
Proof.
  unfold lineMatches, linesIfMatch. intros H.
  rewrite filter_length_0, <- negb_orb, H. cbn [negb].
  destruct (0 <=? ctxLines); [|discriminate].
  destruct (_ <=? _); [|discriminate].
  destruct (truncateAll _); discriminate.
Qed.

Lemma mergeHunks_not_nil (a b : HunkRep) (ctxLines : Z) :
  mergeHunks a b ctxLines <> [].
Proof.
  unfold mergeHunks.
  destruct (StartingLineNumber b <? StartingLineNumber a); cbv beta iota zeta;
    repeat match goal with
           | |- context [if ?c then _ else _] => destruct c
           end; discriminate.
Qed.

Lemma addMatch_not_nil (hs : list HunkRep) (b : HunkRep) (ctxLines : Z) :
  addMatch hs b ctxLines <> [].
Proof.
  destruct (exists_last_or_nil hs) as [->|(hs' & a & ->)].
  - rewrite addMatch_nil. discriminate.
  - rewrite addMatch_last. destruct (0 <=? Overlap a b); intros E;
      apply app_eq_nil in E; destruct E as [_ E].
    + exact (mergeHunks_not_nil _ _ _ E).
    + discriminate.
Qed.

Lemma aggregateFrom_keeps_hunks (projKey flagKey : string)
    (flagAliases : list string) (ctxLines : Z) (delimiters : string) :
  forall (todo i : nat) (flines : list string) (hs : list HunkRep)
         (flines' : list string) (hs' : list HunkRep),
    hs <> [] ->
    aggregateFrom todo i flines hs projKey flagKey flagAliases ctxLines
      delimiters = Some (flines', hs') ->
    hs' <> [].
Proof.
  induction todo as [|todo IH]; intros i flines hs flines' hs' Hhs.
  - intros E. injection E as _ <-. exact Hhs.
  - cbn [aggregateFrom].
    destruct (linesIfMatch _ _ _ _ _ _ _ _) as [[flines1 [b|]]|];
      [| |discriminate]; apply IH; [apply addMatch_not_nil|exact Hhs].
Qed.

Lemma aggregateFrom_no_interest (projKey flagKey : string)
    (flagAliases : list string) (ctxLines : Z) (delimiters : string) :
  forall (rest pre : list string) (hs : list HunkRep),
    noInterest rest flagKey flagAliases delimiters = true ->
    aggregateFrom (List.length rest) (List.length pre) (pre ++ rest) hs
      projKey flagKey flagAliases ctxLines delimiters
    = Some (pre ++ rest, hs).
Proof.
  induction rest as [|line rest IH]; intros pre hs H; [reflexivity|].
  cbn [noInterest forallb] in H. apply andb_true_iff in H.
  destruct H as [Hl Hr]. apply negb_true_iff in Hl.
  cbn [aggregateFrom List.length]. rewrite nth_middle.
  rewrite linesIfMatch_no_match by exact Hl.
  replace (pre ++ line :: rest) with ((pre ++ [line]) ++ rest)
    by (rewrite <- app_assoc; reflexivity).
  replace (S (List.length pre)) with (List.length (pre ++ [line]))
    by (rewrite length_app; cbn [List.length]; lia).
  apply IH. exact Hr.
Qed.

Lemma aggregateFrom_no_hunks (projKey flagKey : string)
    (flagAliases : list string) (ctxLines : Z) (delimiters : string) :
  forall (rest pre flines' : list string),
    aggregateFrom (List.length rest) (List.length pre) (pre ++ rest) []
      projKey flagKey flagAliases ctxLines delimiters
    = Some (flines', []) ->
    noInterest rest flagKey flagAliases delimiters = true.
Proof.
  induction rest as [|line rest IH]; intros pre flines'; [reflexivity|].
  cbn [aggregateFrom List.length noInterest forallb]. rewrite nth_middle.
  destruct (lineMatches line flagKey flagAliases delimiters) eqn:Em.
  - destruct (linesIfMatch _ _ _ _ _ _ _ _) as [[flines1 [b|]]|] eqn:El;
      [| |discriminate].
    + intros E. apply aggregateFrom_keeps_hunks in E;
        [contradiction|apply addMatch_not_nil].
    + exfalso. exact (linesIfMatch_match _ _ _ _ _ _ _ _ _ Em El).
  - rewrite linesIfMatch_no_match by exact Em.
    replace (pre ++ line :: rest) with ((pre ++ [line]) ++ rest)
      by (rewrite <- app_assoc; reflexivity).
    replace (S (List.length pre)) with (List.length (pre ++ [line]))
      by (rewrite length_app; cbn [List.length]; lia).
    apply IH.
Qed.

Lemma aggregate_no_hunks (flines : list string)
    (projKey flagKey : string) (flagAliases : list string) (ctxLines : Z)
    (delimiters : string) (flines' : list string) :
  aggregateHunksForFlag flines projKey flagKey flagAliases ctxLines delimiters
  = Some (flines', []) <->
  flines' = flines /\
  noInterest flines flagKey flagAliases delimiters = true.
Proof.
  unfold aggregateHunksForFlag. split.
  - intros E.
    pose proof (aggregateFrom_no_hunks projKey flagKey flagAliases ctxLines
                  delimiters flines [] flines' E) as Hn.
    split; [|exact Hn].
    pose proof (aggregateFrom_no_interest projKey flagKey flagAliases
                  ctxLines delimiters flines [] [] Hn) as E'.
    cbn [app List.length] in E'. congruence.
  - intros [-> Hn].
    exact (aggregateFrom_no_interest projKey flagKey flagAliases ctxLines
             delimiters flines [] [] Hn).
Qed.

(** A flag gets no hunk exactly when no line of the file is of interest for
    it, and then the search has left the file as it was. *)
Theorem aggregate_no_hunks_iff (flines : list string)
    (projKey flagKey : string) (flagAliases : list string) (ctxLines : Z)
    (delimiters : string) (flines' : list string) :
  aggregateHunksForFlag flines projKey flagKey flagAliases ctxLines delimiters
  = Some (flines', []) <->
  flines' = flines /\
  noInterest flines flagKey flagAliases delimiters = true.
Proof. apply aggregate_no_hunks. Qed.

Lemma toHunksFrom_no_interest (projKey : string) (ctxLines : Z)
    (delimiters : string) (flines : list string) :
  forall (aliases : list (string * list string)) (hunks : list HunkRep),
    noInterestAtAll flines aliases delimiters ->
    toHunksFrom flines hunks projKey aliases ctxLines delimiters
    = Some (flines, hunks).
Proof.
  induction aliases as [|[flagKey flagAliases] rest IH]; intros hunks H;
    [reflexivity|].
  inversion H as [|? ? Hh Hr]; subst. cbn [fst snd] in Hh.
  cbn [toHunksFrom].
  rewrite (proj2 (aggregate_no_hunks flines projKey flagKey flagAliases
                    ctxLines delimiters flines) (conj eq_refl Hh)).
  rewrite app_nil_r. apply IH. exact Hr.
Qed.

Lemma toHunksFrom_no_hunks (projKey : string) (ctxLines : Z)
    (delimiters : string) :
  forall (aliases : list (string * list string)) (flines : list string)
         (hunks : list HunkRep) (flines' : list string),
    toHunksFrom flines hunks projKey aliases ctxLines delimiters
    = Some (flines', []) ->
    hunks = [] /\ noInterestAtAll flines aliases delimiters.
Proof.
  induction aliases as [|[flagKey flagAliases] rest IH];
    intros flines hunks flines'; cbn [toHunksFrom].
  - intros E. injection E as _ ->. split; [reflexivity|constructor].
  - destruct (aggregateHunksForFlag flines projKey flagKey flagAliases
                ctxLines delimiters) as [[flines1 hs]|] eqn:Ea; [|discriminate].
    intros E. apply IH in E. destruct E as [En Hr].
    apply app_eq_nil in En. destruct En as [-> ->].
    apply aggregate_no_hunks in Ea. destruct Ea as [-> Hh].
    split; [reflexivity|]. constructor; [exact Hh|exact Hr].
Qed.

(** [toHunks] returns no reference exactly when no flag of the table has a
    line of interest in the file; it has then left the file as it was. *)
Theorem toHunks_nil_iff (f : file) (projKey : string)
    (aliases : list (string * list string)) (ctxLines : Z)
    (delimiters : string) (flines' : list string) :
  toHunks f projKey aliases ctxLines delimiters = Some (flines', None) <->
  flines' = lines f /\ noInterestAtAll (lines f) aliases delimiters.
Proof.
  unfold toHunks. split.
  - destruct (toHunksFrom (lines f) [] projKey aliases ctxLines delimiters)
      as [[fl hunks]|] eqn:Et; [|discriminate].
    destruct hunks as [|h hunks]; [|discriminate].
    intros E. injection E as <-.
    pose proof (toHunksFrom_no_hunks _ _ _ _ _ _ _ Et) as [_ Hn].
    split; [|exact Hn].
    rewrite (toHunksFrom_no_interest projKey ctxLines delimiters (lines f)
               aliases [] Hn) in Et. congruence.
  - intros [-> Hn].
    rewrite (toHunksFrom_no_interest projKey ctxLines delimiters (lines f)
               aliases [] Hn). reflexivity.
Qed.

(** A reference returned by [toHunks] names the file and has at least one
    hunk. *)
Theorem toHunks_reference (f : file) (projKey : string)
    (aliases : list (string * list string)) (ctxLines : Z)
    (delimiters : string) (flines' : list string)
    (reference : ReferenceHunksRep) :
  toHunks f projKey aliases ctxLines delimiters
  = Some (flines', Some reference) ->
  Path reference = path f /\ Hunks reference <> [].
Proof.
  unfold toHunks.
  destruct (toHunksFrom (lines f) [] projKey aliases ctxLines delimiters)
    as [[fl hunks]|]; [|discriminate].
  destruct hunks as [|h hunks]; [discriminate|].
  cbn [List.length]. destruct (Z.eqb_spec (Z.of_nat (S (List.length hunks))) 0);
    [lia|].
  intros E. injection E as _ <-. split; [reflexivity|discriminate].
Qed.

Lemma toHunksFrom_labelled (projKey : string) (ctxLines : Z)
    (delimiters : string) (n : Z) (keys : list string) :
  ctxLines <= GoInt.max_int -> n <= GoInt.max_int ->
  forall (aliases : list (string * list string)) (flines : list string)
         (hunks : list HunkRep) (flines' : list string)
         (hunks' : list HunkRep),
    Z.of_nat (List.length flines) = n ->
    incl (map fst aliases) keys ->
    Forall (fun h => exists k, In k keys /\ labelled projKey k n h) hunks ->
    toHunksFrom flines hunks projKey aliases ctxLines delimiters
    = Some (flines', hunks') ->
    Forall (fun h => exists k, In k keys /\ labelled projKey k n h) hunks'.
Proof.
  intros Hc Hn.
  induction aliases as [|[flagKey flagAliases] rest IH];
    intros flines hunks flines' hunks' Hlen Hincl Hh; cbn [toHunksFrom].
  - intros E. injection E as _ <-. exact Hh.
  - destruct (aggregateHunksForFlag flines projKey flagKey flagAliases
                ctxLines delimiters) as [[flines1 hs]|] eqn:Ea; [|discriminate].
    pose proof (aggregateFrom_rewritten _ _ _ _ _ _ _ _ _ _ _ Ea) as Hrw.
    apply Forall2_length in Hrw.
    apply aggregate_hunks_labelled in Ea; [|lia|exact Hc].
    apply IH.
    + lia.
    + intros k Hk. apply Hincl. right. exact Hk.
    + apply Forall_app. split; [exact Hh|].
      eapply Forall_impl; [|exact Ea]. intros h Hl. exists flagKey.
      split; [apply Hincl; left; reflexivity|].
      unfold labelled. rewrite <- Hlen. exact Hl.
Qed.

(** A reference returned by [toHunks] names the file and has at least one
    hunk; each of its hunks carries the project key, the key of a flag of
    the table, and starts at a line of the file. *)
Theorem toHunks_reference_labelled (f : file) (projKey : string)
    (aliases : list (string * list string)) (ctxLines : Z)
    (delimiters : string) (flines' : list string)
    (reference : ReferenceHunksRep) :
  Z.of_nat (List.length (lines f)) <= GoInt.max_int ->
  ctxLines <= GoInt.max_int ->
  toHunks f projKey aliases ctxLines delimiters
  = Some (flines', Some reference) ->
  Path reference = path f /\
  Hunks reference <> [] /\
  Forall (fun h =>
            ProjKey h = projKey /\
            In (FlagKey h) (map fst aliases) /\
            1 <= StartingLineNumber h <= Z.of_nat (List.length (lines f)))
    (Hunks reference).
Proof.
  intros Hn Hc. unfold toHunks.
  destruct (toHunksFrom (lines f) [] projKey aliases ctxLines delimiters)
    as [[fl hunks]|] eqn:Et; [|discriminate].
  apply (toHunksFrom_labelled projKey ctxLines delimiters
           (Z.of_nat (List.length (lines f))) (map fst aliases) Hc Hn) in Et;
    [|reflexivity|apply incl_refl|constructor].
  destruct hunks as [|h hunks]; [discriminate|].
  cbn [List.length]. destruct (Z.eqb_spec (Z.of_nat (S (List.length hunks))) 0);
    [lia|].
  intros E. injection E as _ <-. cbn [Path Hunks].
  split; [reflexivity|]. split; [discriminate|].
  eapply Forall_impl; [|exact Et].
  intros h' (k & Hk & Hp & Hf & Hs). rewrite Hf. auto.
Qed.

(** ** Merging two hunks *)

Lemma forallb_skipn {A : Type} (f : A -> bool) (n : nat) (l : list A) :
  forallb f l = true -> forallb f (skipn n l) = true.
Proof.
  revert n. induction l as [|x l IH]; intros [|n] H; simpl in *; auto.
  apply andb_true_iff in H. apply IH, H.
Qed.

(** With [0 <= ctxLines], two hunks of which the first starts no later than
    the second and reaches it give one hunk that keeps the labels and the
    start of the first and ends where the later-ending one ends. *)
Theorem mergeHunks_covers_both (a b : HunkRep) (ctxLines : Z) :
  0 <= ctxLines ->
  StartingLineNumber a <= StartingLineNumber b ->
  0 <= Overlap a b ->
  exists m : HunkRep,
    mergeHunks a b ctxLines = [m] /\
    ProjKey m = ProjKey a /\ FlagKey m = FlagKey a /\
    StartingLineNumber m = StartingLineNumber a /\
    StartingLineNumber m + NumLines m
    = Z.max (StartingLineNumber a + NumLines a)
            (StartingLineNumber b + NumLines b).
Proof.
  intros Hc Hab Hov. unfold mergeHunks.
  destruct (Z.ltb_spec (StartingLineNumber b) (StartingLineNumber a)); [lia|].
  destruct (Z.ltb_spec ctxLines 0); [lia|].
  destruct (Z.ltb_spec (Overlap a b) 0); [lia|]. cbn [orb].
  rewrite Split_length.
  destruct (Z.leb_spec (Count (Lines b) + 1) (Overlap a b)) as [Hsub|Hext].
  - exists a. repeat split; try reflexivity.
    unfold Overlap, NumLines in *. lia.
  - eexists. split; [reflexivity|]. cbn [ProjKey FlagKey StartingLineNumber].
    repeat split; try reflexivity.
    unfold NumLines at 1. cbn [Lines]. rewrite Count_Join.
    + rewrite length_app, length_skipn.
      pose proof (Split_length (Lines a)). pose proof (Split_length (Lines b)).
      unfold Overlap, NumLines in *. lia.
    + intros E. apply app_eq_nil in E. destruct E as [E _].
      exact (Split_not_nil _ E).
    + rewrite forallb_app, Split_pieces_oneLine.
      apply forallb_skipn, Split_pieces_oneLine.
Qed.

(** [mergeHunks] puts the hunk that starts first in front: when the two
    starting lines differ, the order of the arguments does not matter. *)
Theorem mergeHunks_symmetric (a b : HunkRep) (ctxLines : Z) :
  StartingLineNumber a <> StartingLineNumber b ->
  mergeHunks a b ctxLines = mergeHunks b a ctxLines.
Proof.
  intros Hne. unfold mergeHunks.
  destruct (Z.ltb_spec (StartingLineNumber b) (StartingLineNumber a));
    destruct (Z.ltb_spec (StartingLineNumber a) (StartingLineNumber b));
    try lia; reflexivity.
Qed.

(** ** The order of the flags *)

Lemma toHunksFrom_short_hunks (flines : list string) (projKey : string)
    (ctxLines : Z) (delimiters : string) :
  shortLines flines ->
  Z.of_nat (List.length flines) + Z.max 0 ctxLines < GoInt.max_int ->
  forall (aliases : list (string * list string)) (hunks : list HunkRep),
    toHunksFrom flines hunks projKey aliases ctxLines delimiters
    = Some (flines,
            hunks ++ flat_map (hunksOf flines projKey ctxLines delimiters)
                       aliases).
Proof.
  intros Hshort Hfit. induction aliases as [|[flagKey flagAliases] rest IH];
    intros hunks.
  - cbn [toHunksFrom flat_map]. rewrite app_nil_r. reflexivity.
  - destruct (aggregate_returns_on_short_lines flines projKey flagKey
                flagAliases ctxLines delimiters Hshort Hfit) as (hs & Ea).
    assert (Eh : hunksOf flines projKey ctxLines delimiters
                   (flagKey, flagAliases) = hs)
      by (unfold hunksOf; cbn [fst snd]; rewrite Ea; reflexivity).
    cbn [toHunksFrom flat_map]. rewrite Ea, Eh, IH, app_assoc. reflexivity.
Qed.

Lemma toHunks_short_hunks (f : file) (projKey : string)
    (aliases : list (string * list string)) (ctxLines : Z)
    (delimiters : string) :
  shortLines (lines f) ->
  Z.of_nat (List.length (lines f)) + Z.max 0 ctxLines < GoInt.max_int ->
  exists r : option ReferenceHunksRep,
    toHunks f projKey aliases ctxLines delimiters = Some (lines f, r) /\
    hunksOfReference r
    = flat_map (hunksOf (lines f) projKey ctxLines delimiters) aliases.
Proof.
  intros Hshort Hfit. unfold toHunks.
  rewrite (toHunksFrom_short_hunks (lines f) projKey ctxLines delimiters
             Hshort Hfit aliases []). cbn [app].
  destruct (flat_map _ aliases) as [|h hs] eqn:E.
  - exists None. split; reflexivity.
  - cbn [List.length].
    destruct (Z.eqb_spec (Z.of_nat (S (List.length hs))) 0); [lia|].
    eexists. split; reflexivity.
Qed.

(** When no line needs truncation, the order in which the flags of the
    table are visited only changes the order of the hunks of the file. *)
Theorem toHunks_visit_order (f : file) (projKey : string)
    (aliases aliases' : list (string * list string)) (ctxLines : Z)
    (delimiters : string) :
  shortLines (lines f) ->
  Z.of_nat (List.length (lines f)) + Z.max 0 ctxLines < GoInt.max_int ->
  Permutation aliases aliases' ->
  exists r r' : option ReferenceHunksRep,
    toHunks f projKey aliases ctxLines delimiters = Some (lines f, r) /\
    toHunks f projKey aliases' ctxLines delimiters = Some (lines f, r') /\
    Permutation (hunksOfReference r) (hunksOfReference r') /\
    (r = None <-> r' = None).
Proof.
  intros Hshort Hfit Hperm.
  destruct (toHunks_short_hunks f projKey aliases ctxLines delimiters
              Hshort Hfit) as (r & E & Hr).
  destruct (toHunks_short_hunks f projKey aliases' ctxLines delimiters
              Hshort Hfit) as (r' & E' & Hr').
  exists r, r'. split; [exact E|]. split; [exact E'|].
  assert (Hp : Permutation (hunksOfReference r) (hunksOfReference r')).
  { rewrite Hr, Hr'. apply Permutation_flat_map. exact Hperm. }
  split; [exact Hp|].
  assert (Hnil : forall (x : option ReferenceHunksRep) fl,
            toHunks f projKey fl ctxLines delimiters = Some (lines f, x) ->
            (x = None <-> hunksOfReference x = [])).
  { intros [x|] fl Ex; split; try reflexivity; try discriminate.
    intros Hx. apply toHunks_reference in Ex. destruct Ex as [_ Hne].
    contradiction. }
  rewrite (Hnil r aliases E), (Hnil r' aliases' E'). split; intros Hx.
  - rewrite Hx in Hp. apply Permutation_nil in Hp. exact Hp.
  - rewrite Hx in Hp. apply Permutation_sym, Permutation_nil in Hp. exact Hp.
Qed.

(** ** Arrivals within the caps *)

Lemma drain_within_caps (refs ret : list ReferenceHunksRep) (totalHunks : Z) :
  totalHunks = hunkTotal ret ->
  Z.of_nat (List.length ret) + Z.of_nat (List.length refs) < maxFileCount ->
  hunkTotal ret + hunkTotal refs <= maxHunkCount ->
  drainReferences refs ret totalHunks = ret ++ refs.
Proof.
  revert ret totalHunks.
  induction refs as [|r refs IH]; intros ret totalHunks Ht Hf Hh.
  - cbn [drainReferences]. rewrite app_nil_r. reflexivity.
  - cbn [drainReferences hunkTotal List.length] in *.
    rewrite length_app. cbn [List.length].
    pose proof (hunkTotal_nonneg ret). pose proof (hunkTotal_nonneg refs).
    destruct (Z.leb_spec maxFileCount (Z.of_nat (List.length ret + 1)));
      [lia|].
    rewrite add_in_range
      by (subst totalHunks; unfold GoInt.in_range, GoInt.min_int,
            GoInt.max_int, maxHunkCount in *; lia).
    destruct (Z.ltb_spec maxHunkCount
                (totalHunks + Z.of_nat (List.length (Hunks r)))); [lia|].
    rewrite IH.
    + rewrite <- app_assoc. reflexivity.
    + rewrite hunkTotal_app. cbn [hunkTotal]. lia.
    + rewrite length_app. cbn [List.length]. lia.
    + rewrite hunkTotal_app. cbn [hunkTotal]. lia.
Qed.

(** When fewer than [maxFileCount] references arrive, with at most
    [maxHunkCount] hunks in all, [SearchForRefs] returns every one of them,
    in the order of arrival. *)
Theorem SearchForRefs_within_caps (refs : list ReferenceHunksRep) :
  Z.of_nat (List.length refs) < maxFileCount ->
  hunkTotal refs <= maxHunkCount ->
  SearchForRefs refs = refs.
Proof.
  intros Hf Hh. unfold SearchForRefs.
  rewrite drain_within_caps; [reflexivity|reflexivity| |];
    cbn [List.length hunkTotal]; lia.
Qed.

(** ** What a hunk reports *)

Lemma matchDelimiters_Contains (line flagKey delimiters : string) :
  matchDelimiters line flagKey delimiters = true ->
  Contains line flagKey = true.
Proof.
  unfold matchDelimiters. intros H.
  apply existsb_exists in H. destruct H as (left & _ & H).
  apply existsb_exists in H. destruct H as (right & _ & H).
  apply Contains_iff in H. destruct H as (p & q & ->).
  apply Contains_iff.
  exists (p ++ Utf8.encode left)%string, (Utf8.encode right ++ q)%string.
  rewrite !append_assoc. reflexivity.
Qed.

Lemma hunkAliases_In (line : string) (aliases : list string) (alias : string) :
  In alias (hunkAliases line aliases) ->
  In alias aliases /\ Contains line alias = true.
Proof.
  unfold hunkAliases.
  assert (G : forall (l acc : list string),
            In alias (fold_left (fun _ al => [al]) l acc) ->
            In alias l \/ In alias acc).
  { induction l as [|x l IH]; intros acc H; cbn [fold_left] in H.
    - right. exact H.
    - apply IH in H. destruct H as [H|[H|[]]]; [left; right; exact H|].
      left. left. exact H. }
  intros H. apply G in H. destruct H as [H|[]].
  apply filter_In in H. exact H.
Qed.

(** A hunk is reported for a line only if the line contains the flag key or
    one of its aliases, and the hunk lists no alias that is not in the
    line. *)
Theorem linesIfMatch_reports_occurrences (flines : list string)
    (projKey flagKey line : string) (aliases : list string)
    (i ctxLines : Z) (delimiters : string)
    (flines' : list string) (b : HunkRep) :
  linesIfMatch flines projKey flagKey line aliases i ctxLines delimiters
  = Some (flines', Some b) ->
  (Contains line flagKey = true \/
   exists alias, In alias aliases /\ Contains line alias = true) /\
  Forall (fun alias => In alias aliases /\ Contains line alias = true)
    (Aliases b).
Proof.
  unfold linesIfMatch. rewrite filter_length_0.
  destruct (matchDelimiters line flagKey delimiters) eqn:Em;
    destruct (existsb (fun alias => Contains line alias) aliases) eqn:Ea;
    cbn [negb andb]; try discriminate;
    (assert (Hocc : Contains line flagKey = true \/
                    exists alias, In alias aliases /\
                                  Contains line alias = true);
     [first [left; apply (matchDelimiters_Contains _ _ _ Em)
            |right; apply existsb_exists in Ea; exact Ea]|]);
    (assert (Hal : forall h, Aliases h = hunkAliases line aliases ->
                Forall (fun alias => In alias aliases /\
                                     Contains line alias = true) (Aliases h));
     [intros h ->; apply Forall_forall; intros al; apply hunkAliases_In|]);
    (destruct (0 <=? ctxLines);
     [destruct (_ <=? _); [|discriminate];
      destruct (truncateAll _); [|discriminate]|]);
    intros E; injection E as _ <-; (split; [exact Hocc|apply Hal; reflexivity]).
Qed.

(** ** Single lines *)









(** ** Branch references *)

Lemma afterLiteral_iff (p s rest : string) :
  afterLiteral p s = Some rest <-> s = (p ++ rest)%string.
Proof.
  revert s. induction p as [|a p IH]; intros s; cbn [afterLiteral append].
  - split; [intros E; injection E as ->; reflexivity|intros ->; reflexivity].
  - destruct s as [|b s]; [split; discriminate|].
    destruct (Ascii.eqb_spec a b) as [->|Hne].
    + rewrite IH. split; [intros ->; reflexivity|].
      intros E. injection E as E. exact E.
    + split; [discriminate|]. intros E. injection E as E _. congruence.
Qed.

Lemma dotPlusToEnd_iff (s : string) :
  dotPlusToEnd s = true <-> s <> EmptyString /\ oneLine s = true.
Proof.
  unfold dotPlusToEnd. rewrite runes_oneLine, andb_true_iff, negb_true_iff.
  assert (H : (Z.of_nat (List.length (Utf8.runes s)) =? 0) = false
              <-> s <> EmptyString).
  { rewrite <- runes_nil.
    destruct (Utf8.runes s) as [|r rs]; cbn [List.length].
    - split; [discriminate|]. intros Hn. contradiction.
    - destruct (Z.eqb_spec (Z.of_nat (S (List.length rs))) 0); [lia|].
      split; [discriminate|reflexivity]. }
  rewrite H. reflexivity.
Qed.

Lemma append_cancel (p a b : string) :
  (p ++ a)%string = (p ++ b)%string -> a = b.
Proof.
  induction p as [|c p IH]; cbn [append]; [auto|].
  intros E. injection E as E. auto.
Qed.

(** [parseBranch] accepts exactly the references made of [refs/heads/] and
    a non-empty rest without a newline, and returns this rest, slashes
    included; for every other reference it returns the error that quotes
    the reference. *)
Theorem parseBranch_iff (ref : string) :
  (forall branch : string,
      parseBranch ref = inl branch <->
      ref = ("refs/heads/" ++ branch)%string /\
      branch <> EmptyString /\ oneLine branch = true)
  /\
  ((exists branch : string, parseBranch ref = inl branch) \/
   parseBranch ref
   = inr ("expected branch name starting with refs/heads/, got: " ++ ref)%string).
Proof.
  unfold parseBranch, FindStringSubmatch. split.
  - intros branch.
    destruct (afterLiteral "refs/heads/" ref) as [rest|] eqn:Ea.
    + apply afterLiteral_iff in Ea.
      destruct (dotPlusToEnd rest) eqn:Ed.
      * apply dotPlusToEnd_iff in Ed. cbn [nth]. split.
        -- intros E. injection E as <-. split; [exact Ea|exact Ed].
        -- intros (E & _). rewrite Ea in E.
           apply append_cancel in E. congruence.
      * split; [discriminate|]. intros (E & Hb).
        rewrite Ea in E. apply append_cancel in E. subst rest.
        apply dotPlusToEnd_iff in Hb. congruence.
    + split; [discriminate|]. intros (E & _).
      apply afterLiteral_iff in E. congruence.
  - destruct (afterLiteral "refs/heads/" ref) as [rest|]; [|right; reflexivity].
    destruct (dotPlusToEnd rest); [|right; reflexivity].
    left. eexists. reflexivity.
Qed.

(** ** The file cap *)

Lemma drain_at_most (refs ret : list ReferenceHunksRep) (totalHunks : Z) :
  Z.of_nat (List.length ret) < maxFileCount ->
  exists k : nat,
    drainReferences refs ret totalHunks = ret ++ firstn k refs /\
    Z.of_nat (List.length ret + k) <= maxFileCount.
Proof.
  revert ret totalHunks.
  induction refs as [|r refs IH]; intros ret totalHunks Hlt.
  - exists 0%nat. cbn [drainReferences firstn]. rewrite app_nil_r.
    split; [reflexivity|lia].
  - cbn [drainReferences]. rewrite length_app. cbn [List.length].
    destruct (Z.leb_spec maxFileCount (Z.of_nat (List.length ret + 1))).
    + exists 1%nat. cbn [firstn]. split; [reflexivity|lia].
    + destruct (maxHunkCount <? _).
      * exists 1%nat. cbn [firstn]. split; [reflexivity|lia].
      * destruct (IH (ret ++ [r])
                    (GoInt.add totalHunks
                       (Z.of_nat (List.length (Hunks r))))) as (k & E & Hk).
        -- rewrite length_app. cbn [List.length]. lia.
        -- exists (S k). rewrite E, <- app_assoc. cbn [firstn app].
           split; [reflexivity|].
           rewrite length_app in Hk. cbn [List.length] in Hk. lia.
Qed.

(** Whatever arrives, [SearchForRefs] returns a prefix of the arrivals of
    at most [maxFileCount] references. *)
Theorem SearchForRefs_at_most_maxFileCount (refs : list ReferenceHunksRep) :
  Z.of_nat (List.length (SearchForRefs refs)) <= maxFileCount /\
  exists k : nat, SearchForRefs refs = firstn k refs.
Proof.
  unfold SearchForRefs.
  destruct (drain_at_most refs [] 0) as (k & E & Hk).
  - cbn [List.length]. unfold maxFileCount. lia.
  - rewrite E. cbn [app List.length] in *. split; [|exists k; reflexivity].
    pose proof (firstn_le_length k refs). lia.
Qed.

(** ** The lines of a hunk's text *)















(** ** Every line of interest is reported *)


Lemma cover_keeps_current (n c : nat) (flagKey : string) (aliases : list string)
    (delimiters : string) (rest : list string) :
  forall (i clo chi : nat),
  exists hi : nat,
    In (clo, hi)
       (coverFrom n c i rest (Some (clo, chi)) flagKey aliases delimiters) /\
    (chi <= hi)%nat.
Proof.
  induction rest as [|line rest IH]; intros i clo chi; cbn [coverFrom].
  - exists chi. split; [left; reflexivity|lia].
  - destruct (lineMatches line flagKey aliases delimiters); [|apply IH].
    unfold extendCover, window. cbn [fst snd].
    destruct (i - c <=? chi)%nat; cbn [fst snd app].
    + destruct (IH (S i) clo (Nat.max chi (Nat.min n (i + c + 1))))
        as (hi & Hin & Hle).
      exists hi. split; [exact Hin|lia].
    + exists chi. split; [left; reflexivity|lia].
Qed.

Lemma cover_contains_match (n c : nat) (flagKey : string) (aliases : list string)
    (delimiters : string) (rest : list string) :
  forall (i : nat) (cur : option (nat * nat)) (j : nat) (line : string),
    (i + List.length rest <= n)%nat ->
    (forall clo chi, cur = Some (clo, chi) -> (clo <= i)%nat) ->
    nth_error rest j = Some line ->
    lineMatches line flagKey aliases delimiters = true ->
    exists lo hi : nat,
      In (lo, hi) (coverFrom n c i rest cur flagKey aliases delimiters) /\
      (lo <= i + j < hi)%nat.
Proof.
  induction rest as [|line0 rest IH]; intros i cur j line Hn Hcur Hj Hm.
  - destruct j; discriminate.
  - cbn [List.length] in Hn. cbn [coverFrom].
    assert (Hnext : forall clo chi,
              snd (extendCover cur (window n c i)) = Some (clo, chi) ->
              (clo <= S i)%nat).
    { intros clo chi. unfold extendCover, window. cbn [fst snd].
      destruct cur as [[clo0 chi0]|].
      - specialize (Hcur clo0 chi0 eq_refl).
        destruct (i - c <=? chi0)%nat; cbn [snd]; intros E;
          injection E as <- _; lia.
      - cbn [snd]. intros E. injection E as <- _. lia. }
    destruct j as [|j].
    + cbn [nth_error] in Hj. injection Hj as ->. rewrite Hm.
      assert (Hhere : exists clo chi,
                snd (extendCover cur (window n c i)) = Some (clo, chi) /\
                (clo <= i < chi)%nat).
      { unfold extendCover, window. cbn [fst snd].
        destruct cur as [[clo0 chi0]|].
        - specialize (Hcur clo0 chi0 eq_refl).
          destruct (i - c <=? chi0)%nat; cbn [snd]; eexists _, _;
            (split; [reflexivity|lia]).
        - cbn [snd]. eexists _, _. split; [reflexivity|lia]. }
      destruct Hhere as (clo & chi & -> & Hr).
      destruct (cover_keeps_current n c flagKey aliases delimiters rest (S i)
                  clo chi) as (hi & Hin & Hle).
      exists clo, hi. split; [apply in_or_app; right; exact Hin|lia].
    + cbn [nth_error] in Hj.
      replace (i + S j)%nat with (S i + j)%nat by lia.
      destruct (lineMatches line0 flagKey aliases delimiters).
      * destruct (IH (S i) _ j line ltac:(lia) Hnext Hj Hm)
          as (lo & hi & Hin & Hr).
        exists lo, hi. split; [apply in_or_app; right; exact Hin|exact Hr].
      * apply (IH (S i) cur j line); try assumption; [lia|].
        intros clo chi E. specialize (Hcur clo chi E). lia.
Qed.

Lemma cover_holds_matches (n c : nat) (flagKey : string) (aliases : list string)
    (delimiters : string) (flines : list string)
    (rest : list string) :
  forall (pre : list string) (cur : option (nat * nat)),
    flines = pre ++ rest ->
    List.length flines = n ->
    (forall w, cur = Some w -> holdsMatch n flagKey aliases delimiters flines w) ->
    Forall (holdsMatch n flagKey aliases delimiters flines)
      (coverFrom n c (List.length pre) rest cur flagKey aliases delimiters).
Proof.
  induction rest as [|line rest IH]; intros pre cur Efl Hlen Hcur;
    cbn [coverFrom].
  - destruct cur as [w|]; [|constructor].
    constructor; [apply Hcur; reflexivity|constructor].
  - assert (Epre : flines = (pre ++ [line]) ++ rest)
      by (rewrite <- app_assoc; exact Efl).
    assert (Elen : S (List.length pre) = List.length (pre ++ [line]))
      by (rewrite length_app; cbn [List.length]; lia).
    assert (Hi : (List.length pre < n)%nat).
    { rewrite <- Hlen, Efl, length_app. cbn [List.length]. lia. }
    destruct (lineMatches line flagKey aliases delimiters) eqn:Em.
    + assert (Hw : holdsMatch n flagKey aliases delimiters flines (window n c (List.length pre))).
      { unfold holdsMatch, window. cbn [fst snd]. split; [lia|].
        exists (List.length pre), line. split; [|split; [exact Em|lia]].
        rewrite Efl, nth_error_app2, Nat.sub_diag by lia. reflexivity. }
      apply Forall_app. split.
      * unfold extendCover. destruct cur as [[clo chi]|]; [|constructor].
        destruct (fst (window n c (List.length pre)) <=? chi)%nat;
          cbn [fst]; [constructor|].
        constructor; [apply Hcur; reflexivity|constructor].
      * rewrite Elen. apply IH; [exact Epre|exact Hlen|].
        intros w. unfold extendCover.
        destruct cur as [[clo chi]|]; [|cbn [snd]; congruence].
        destruct (Nat.leb_spec (fst (window n c (List.length pre))) chi)
          as [Ht|Ht]; cbn [snd]; [|congruence].
        intros E. injection E as <-.
        destruct (Hcur (clo, chi) eq_refl) as [Hr (j & l & Hj & Hm & Hin)].
        destruct Hw as [Hwr _]. unfold window in *. cbn [fst snd] in *.
        unfold holdsMatch. cbn [fst snd].
        split; [lia|]. exists j, l. split; [exact Hj|].
        split; [exact Hm|lia].
    + rewrite Elen. apply IH; [exact Epre|exact Hlen|exact Hcur].
Qed.


(** On a file whose lines are single lines that need no truncation, with
    [c] context lines, every line of interest lies within a returned hunk,
    and every returned hunk holds a line of interest. *)
Theorem aggregate_reports_every_match (flines : list string)
    (projKey flagKey : string) (flagAliases : list string) (c : nat)
    (delimiters : string) :
  shortLines flines ->
  forallb oneLine flines = true ->
  Z.of_nat (List.length flines) + Z.of_nat c < GoInt.max_int ->
  exists hs : list HunkRep,
    aggregateHunksForFlag flines projKey flagKey flagAliases (Z.of_nat c)
      delimiters = Some (flines, hs) /\
    (forall (i : nat) (line : string),
        nth_error flines i = Some line ->
        lineMatches line flagKey flagAliases delimiters = true ->
        exists h : HunkRep,
          In h hs /\
          StartingLineNumber h <= Z.of_nat i + 1
          < StartingLineNumber h + NumLines h) /\
    (forall h : HunkRep,
        In h hs ->
        exists (i : nat) (line : string),
          nth_error flines i = Some line /\
          lineMatches line flagKey flagAliases delimiters = true /\
          StartingLineNumber h <= Z.of_nat i + 1
          < StartingLineNumber h + NumLines h).
Proof.
  intros Hshort Hone Hfit.
  destruct (aggregate_is_cover flines projKey flagKey flagAliases c delimiters
              Hshort Hone Hfit) as (hs & E & Hmap).
  exists hs. split; [exact E|].
  pose proof (cover_holds_matches (List.length flines) c flagKey flagAliases
                delimiters flines flines [] None eq_refl eq_refl
                ltac:(discriminate)) as Hvalid.
  cbn [List.length] in Hvalid. rewrite Forall_forall in Hvalid.
  assert (Hhunk : forall (h : HunkRep) (w : nat * nat),
            located h = excerptOf flines w ->
            (fst w < snd w <= List.length flines)%nat ->
            StartingLineNumber h = Z.of_nat (fst w) + 1 /\
            NumLines h = Z.of_nat (snd w - fst w)).
  { intros h [lo hi] Hl Hr. unfold located, excerptOf in Hl.
    cbn [fst snd] in *. injection Hl as Hs Ht. split; [exact Hs|].
    rewrite (NumLines_Join h (slice flines lo hi));
      [|apply slice_not_nil; lia|apply forallb_slice; exact Hone|exact Ht].
    rewrite slice_length by lia. reflexivity. }
  split.
  - intros i line Hi Hm.
    destruct (cover_contains_match (List.length flines) c flagKey flagAliases
                delimiters flines 0 None i line ltac:(simpl; lia)
                ltac:(discriminate) Hi Hm) as (lo & hi & Hin & Hr).
    pose proof (Hvalid _ Hin) as [Hv _]. cbn [fst snd] in Hv.
    apply (in_map (excerptOf flines)) in Hin. rewrite <- Hmap in Hin.
    apply in_map_iff in Hin. destruct Hin as (h & Hl & Hh).
    destruct (Hhunk h (lo, hi) Hl Hv) as [Hs Hn]. cbn [fst snd] in *.
    exists h. split; [exact Hh|lia].
  - intros h Hh. apply (in_map located) in Hh. rewrite Hmap in Hh.
    apply in_map_iff in Hh. destruct Hh as ([lo hi] & Hl & Hin).
    destruct (Hvalid _ Hin) as [Hv (j & line & Hj & Hm & Hr)].
    destruct (Hhunk h (lo, hi) (eq_sym Hl) Hv) as [Hs Hn].
    cbn [fst snd] in *. exists j, line.
    split; [exact Hj|]. split; [exact Hm|lia].
Qed.

(** ** Instances *)




Lemma truncateLine_cuts_between_characters_witness :
  exists kept rest : string,
    truncateLine flagBeyondLimit = Some (kept ++ ellipsis)%string /\
    flagBeyondLimit = (kept ++ rest)%string /\
    kept = Utf8.of_runes (firstn 500 (Utf8.runes flagBeyondLimit)) /\
    rest = Utf8.of_runes (skipn 500 (Utf8.runes flagBeyondLimit)) /\
    List.length (Utf8.runes flagBeyondLimit)
    = (500 + List.length (skipn 500 (Utf8.runes flagBeyondLimit)))%nat.
Proof.
  apply (truncateLine_cuts_between_characters flagBeyondLimit).
  - vm_compute. reflexivity.
  - vm_compute. reflexivity.
  - vm_compute. discriminate.
Defined.

Lemma linesIfMatch_reports_occurrences_witness :
  (Contains "alpha beta" "flag" = true \/
   exists alias, In alias ["alpha"; "beta"] /\
                 Contains "alpha beta" alias = true) /\
  Forall (fun alias => In alias ["alpha"; "beta"] /\
                       Contains "alpha beta" alias = true) ["beta"].
Proof.
  apply (linesIfMatch_reports_occurrences ["alpha beta"] "proj" "flag"
           "alpha beta" ["alpha"; "beta"] 0 0 "'" ["alpha beta"]
           (mkHunkRep "proj" "flag" 1 "alpha beta" ["beta"])).
  reflexivity.
Defined.



Lemma toHunks_reference_labelled_witness :
  let reference :=
    mkReferenceHunksRep "main.go"
      [mkHunkRep "proj" "flag" 4
         (Join ["l4"; "l5 'flag'"; "l6"; "l7 'flag'"; "l8"]) []] in
  Path reference = "main.go" /\
  Hunks reference <> [] /\
  Forall (fun h =>
            ProjKey h = "proj" /\
            In (FlagKey h) ["other"; "flag"] /\
            1 <= StartingLineNumber h <= 10)
    (Hunks reference).
Proof.
  intros reference.
  apply (toHunks_reference_labelled (mkFile "main.go" tenLines) "proj"
           [("other", []); ("flag", [])] 1 "'" tenLines reference).
  - vm_compute. discriminate.
  - vm_compute. discriminate.
  - reflexivity.
Defined.

Lemma toHunks_visit_order_witness :
  exists r r' : option ReferenceHunksRep,
    toHunks (mkFile "main.go" tenLines) "proj"
      [("flag", []); ("l9", ["l2"])] 1 "'" = Some (tenLines, r) /\
    toHunks (mkFile "main.go" tenLines) "proj"
      [("l9", ["l2"]); ("flag", [])] 1 "'" = Some (tenLines, r') /\
    Permutation (hunksOfReference r) (hunksOfReference r') /\
    (r = None <-> r' = None).
Proof.
  apply (toHunks_visit_order (mkFile "main.go" tenLines) "proj"
           [("flag", []); ("l9", ["l2"])] [("l9", ["l2"]); ("flag", [])]
           1 "'").
  - exact shortLines_tenLines.
  - vm_compute. reflexivity.
  - apply perm_swap.
Defined.

Lemma mergeHunks_covers_both_witness :
  let a := mkHunkRep "proj" "flag" 4 (Join ["l4"; "l5 'flag'"; "l6"]) [] in
  let b := mkHunkRep "proj" "flag" 6 (Join ["l6"; "l7 'flag'"; "l8"]) [] in
  exists m : HunkRep,
    mergeHunks a b 1 = [m] /\
    ProjKey m = "proj" /\ FlagKey m = "flag" /\
    StartingLineNumber m = 4 /\
    StartingLineNumber m + NumLines m = Z.max (4 + 3) (6 + 3).
Proof.
  intros a b.
  apply (mergeHunks_covers_both a b 1); vm_compute; discriminate.
Defined.

Lemma mergeHunks_symmetric_witness :
  let a := mkHunkRep "proj" "flag" 4 (Join ["l4"; "l5 'flag'"; "l6"]) [] in
  let b := mkHunkRep "proj" "flag" 6 (Join ["l6"; "l7 'flag'"; "l8"]) [] in
  mergeHunks a b 1 = mergeHunks b a 1.
Proof.
  intros a b. apply (mergeHunks_symmetric a b 1). vm_compute. discriminate.
Defined.

Lemma SearchForRefs_within_caps_witness :
  SearchForRefs (repeat (referenceOf 1000) 25) = repeat (referenceOf 1000) 25.
Proof.
  apply (SearchForRefs_within_caps (repeat (referenceOf 1000) 25)).
  - vm_compute. reflexivity.
  - vm_compute. discriminate.
Defined.


Lemma aggregate_reports_every_match_witness :
  exists hs : list HunkRep,
    aggregateHunksForFlag tenLines "proj" "flag" [] (Z.of_nat 1) "'"
    = Some (tenLines, hs) /\
    (forall (i : nat) (line : string),
        nth_error tenLines i = Some line ->
        lineMatches line "flag" [] "'" = true ->
        exists h : HunkRep,
          In h hs /\
          StartingLineNumber h <= Z.of_nat i + 1
          < StartingLineNumber h + NumLines h) /\
    (forall h : HunkRep,
        In h hs ->
        exists (i : nat) (line : string),
          nth_error tenLines i = Some line /\
          lineMatches line "flag" [] "'" = true /\
          StartingLineNumber h <= Z.of_nat i + 1
          < StartingLineNumber h + NumLines h).
Proof.
  apply (aggregate_reports_every_match tenLines "proj" "flag" [] 1 "'").
  - exact shortLines_tenLines.
  - reflexivity.
  - vm_compute. reflexivity.
Defined.
